(** * stay-fresh-lsp-proxy: the message parser, the diagnostic filter and the
    frame encoder of [src/proxy.ts], embedded as Rocq functions.

    Buffers are lists of bytes, JavaScript strings are lists of UTF-16 code
    units, JavaScript numbers are their exact values together with [NaN] and
    the two infinities.  The built-ins of the host whose definition is not part
    of the repository ([JSON.parse], [JSON.stringify], UTF-8 decoding, the
    string/number conversions of the language) are the variables of
    [Section Proxy]: every theorem holds for each implementation of them. *)

From Stdlib Require Import List ZArith NArith QArith Lia Bool Ascii.
From Stdlib Require String.
Import String.StringSyntax.
From Stdlib.Strings Require Import Byte.
Import ListNotations.
Close Scope Q_scope.
Open Scope nat_scope.
Open Scope string_scope.

(* ------------------------------------------------------------------ *)
(** ** Bytes and strings *)

Definition bytes := list byte.

(** A JavaScript string: its UTF-16 code units. *)
Definition jsstring := list N.

(** An ASCII literal of the source as a JavaScript string. *)
Definition js (s : String.string) : jsstring :=
  map N_of_ascii (String.list_ascii_of_string s).

Definition byte_of_N (n : N) : byte :=
  match Byte.of_N (n mod 256) with
  | Some b => b
  | None => x00
  end.

Fixpoint jsstring_eqb (a b : jsstring) : bool :=
  match a, b with
  | [], [] => true
  | x :: a', y :: b' => (x =? y)%N && jsstring_eqb a' b'
  | _, _ => false
  end.

(** [buf.toString("ascii")]: Node clears the high bit of every byte. *)
Definition toString_ascii (b : bytes) : jsstring :=
  map (fun x => N.land (Byte.to_N x) 127) b.

(** [Buffer.from(s, "ascii")]: the low eight bits of every code unit. *)
Definition Buffer_from_ascii (s : jsstring) : bytes := map byte_of_N s.

(** [Buffer.from(s, "utf-8")]: a surrogate pair is one four-byte sequence, a
    lone surrogate is written as U+FFFD. *)
Definition utf8_of_code_point (c : N) : bytes :=
  if (c <? 128)%N then [byte_of_N c]
  else if (c <? 2048)%N then
    [byte_of_N (192 + N.shiftr c 6); byte_of_N (128 + N.land c 63)]
  else if (c <? 65536)%N then
    [byte_of_N (224 + N.shiftr c 12);
     byte_of_N (128 + N.land (N.shiftr c 6) 63);
     byte_of_N (128 + N.land c 63)]
  else
    [byte_of_N (240 + N.shiftr c 18);
     byte_of_N (128 + N.land (N.shiftr c 12) 63);
     byte_of_N (128 + N.land (N.shiftr c 6) 63);
     byte_of_N (128 + N.land c 63)].

Definition is_high_surrogate (u : N) : bool := (55296 <=? u)%N && (u <=? 56319)%N.
Definition is_low_surrogate (u : N) : bool := (56320 <=? u)%N && (u <=? 57343)%N.

Fixpoint Buffer_from_utf8 (s : jsstring) : bytes :=
  match s with
  | [] => []
  | u :: rest =>
      if is_high_surrogate u then
        match rest with
        | v :: rest' =>
            if is_low_surrogate v then
              utf8_of_code_point (65536 + (u - 55296) * 1024 + (v - 56320))
                ++ Buffer_from_utf8 rest'
            else utf8_of_code_point 65533 ++ Buffer_from_utf8 rest
        | [] => utf8_of_code_point 65533
        end
      else if is_low_surrogate u then
        utf8_of_code_point 65533 ++ Buffer_from_utf8 rest
      else utf8_of_code_point u ++ Buffer_from_utf8 rest
  end.

(** [buf.indexOf(needle)]: the offset of the first occurrence, [None] for the
    source's [-1]. *)
Fixpoint starts_with (needle hay : bytes) : bool :=
  match needle, hay with
  | [], _ => true
  | _ :: _, [] => false
  | x :: needle', y :: hay' => Byte.eqb x y && starts_with needle' hay'
  end.

Fixpoint indexOf (needle hay : bytes) : option nat :=
  if starts_with needle hay then Some 0
  else match hay with
       | [] => None
       | _ :: hay' => option_map S (indexOf needle hay')
       end.

(** The header/body separator, ["\r\n\r\n"]. *)
Definition CRLFCRLF : bytes := [x0d; x0a; x0d; x0a].

(* ------------------------------------------------------------------ *)
(** ** Numbers *)

(** A JavaScript number.  A finite number is its exact value; the two zeros
    are not told apart (no operation of the program distinguishes them). *)
Inductive number :=
| NaN
| Infinity (negative : bool)
| Finite (q : Q).

Definition number_of_Z (z : Z) : number := Finite (inject_Z z).
Definition number_of_nat (n : nat) : number := number_of_Z (Z.of_nat n).

Definition Qlt_bool (a b : Q) : bool := negb (Qle_bool b a).

(** [a < b] of the language: [false] as soon as one side is [NaN]. *)
Definition number_lt (a b : number) : bool :=
  match a, b with
  | NaN, _ | _, NaN => false
  | Infinity na, Infinity nb => na && negb nb
  | Infinity na, Finite _ => na
  | Finite _, Infinity nb => negb nb
  | Finite x, Finite y => Qlt_bool x y
  end.

(** [a <= b] of the language: [b < a] is neither true nor undefined. *)
Definition number_le (a b : number) : bool :=
  match a, b with
  | NaN, _ | _, NaN => false
  | _, _ => negb (number_lt b a)
  end.

(** The nearest double of a natural number, ties to even; [Infinity] from
    2^1024 on. *)
Definition round_to_double (z : Z) : number :=
  if (z <? 2 ^ 53)%Z then number_of_Z z
  else
    let e := (Z.log2 z - 52)%Z in
    let q := Z.shiftr z e in
    let r := Z.land z (Z.ones e) in
    let half := Z.shiftl 1 (e - 1) in
    let q' := if (half <? r)%Z || ((r =? half)%Z && Z.odd q) then (q + 1)%Z else q in
    let v := Z.shiftl q' e in
    if (2 ^ 1024 <=? v)%Z then Infinity false else number_of_Z v.

(** White space of the language ([WhiteSpace] and [LineTerminator]): what
    [parseInt] skips and what [\s] matches. *)
Definition is_whitespace (c : N) : bool :=
  ((9 <=? c) && (c <=? 13) || (c =? 32) || (c =? 160) || (c =? 5760)
   || (8192 <=? c) && (c <=? 8202) || (c =? 8232) || (c =? 8233)
   || (c =? 8239) || (c =? 8287) || (c =? 12288) || (c =? 65279))%N.

Definition is_digit (c : N) : bool := ((48 <=? c) && (c <=? 57))%N.

Fixpoint dropWhile {A} (f : A -> bool) (l : list A) : list A :=
  match l with
  | x :: l' => if f x then dropWhile f l' else l
  | [] => []
  end.

Fixpoint takeWhile {A} (f : A -> bool) (l : list A) : list A :=
  match l with
  | x :: l' => if f x then x :: takeWhile f l' else []
  | [] => []
  end.

(** The value of a run of decimal digits, most significant first. *)
Definition digits_value (ds : jsstring) : Z :=
  fold_left (fun acc d => (10 * acc + (Z.of_N d - 48))%Z) ds 0%Z.

(** [parseInt(s, 10)]. *)
Definition parseInt (s : jsstring) : number :=
  let s1 := dropWhile is_whitespace s in
  let negative := match s1 with c :: _ => (c =? 45)%N | [] => false end in
  let s2 := match s1 with
            | c :: rest => if ((c =? 43) || (c =? 45))%N then rest else s1
            | [] => s1
            end in
  match takeWhile is_digit s2 with
  | [] => NaN
  | ds =>
      match round_to_double (digits_value ds) with
      | Finite q => Finite (if negative then Qopp q else q)
      | Infinity _ => Infinity negative
      | NaN => NaN
      end
  end.

(** [String(n)] for an array or buffer length [n]: its decimal digits (a
    length is below 2^53, where the conversion has no exponent part). *)
Fixpoint decimal_digits (fuel : nat) (n : N) (acc : jsstring) : jsstring :=
  match fuel with
  | O => acc
  | S fuel' =>
      let acc' := (48 + n mod 10)%N :: acc in
      if (n <? 10)%N then acc' else decimal_digits fuel' (n / 10)%N acc'
  end.

Definition length_toString (n : nat) : jsstring :=
  decimal_digits (S n) (N.of_nat n) [].

(* ------------------------------------------------------------------ *)
(** ** The header pattern [/Content-Length:\s*(\d+)/i] *)

(** Case folding of a pattern without the [u] flag, as far as it can make a
    code unit equal to an ASCII pattern character: only [a-z] fold to
    [A-Z]. *)
Definition canonicalize (c : N) : N :=
  if ((97 <=? c) && (c <=? 122))%N then (c - 32)%N else c.

Fixpoint match_literal_ci (pat s : jsstring) : option jsstring :=
  match pat, s with
  | [], _ => Some s
  | _ :: _, [] => None
  | p :: pat', c :: s' =>
      if (canonicalize p =? canonicalize c)%N then match_literal_ci pat' s'
      else None
  end.

(** The pattern anchored at the head of [s]; the result is the capture group.
    [\s*] and [\d+] are greedy and their classes are disjoint, so there is
    nothing to backtrack into. *)
Definition match_here (s : jsstring) : option jsstring :=
  match match_literal_ci (js "Content-Length:") s with
  | None => None
  | Some rest =>
      match takeWhile is_digit (dropWhile is_whitespace rest) with
      | [] => None
      | ds => Some ds
      end
  end.

(** [headerBlock.match(...)]: the leftmost match; [Some] of capture group 1. *)
Fixpoint header_match (s : jsstring) : option jsstring :=
  match match_here s with
  | Some ds => Some ds
  | None =>
      match s with
      | [] => None
      | _ :: s' => header_match s'
      end
  end.


(* ------------------------------------------------------------------ *)
(** ** JSON values *)

(** What [JSON.parse] returns.  An object is the list of its own properties in
    enumeration order, each key once. *)
Unset Elimination Schemes.
Inductive json :=
| JNull
| JBool (b : bool)
| JNumber (n : number)
| JString (s : jsstring)
| JArray (elements : list json)
| JObject (properties : list (jsstring * json)).
Set Elimination Schemes.

(** A computation of the language that may throw. *)
Inductive exception := TypeError.

Inductive completion (A : Type) :=
| Normal (a : A)
| Throw (e : exception).
Arguments Normal {A} a.
Arguments Throw {A} e.

Definition bind {A B} (c : completion A) (k : A -> completion B) : completion B :=
  match c with
  | Normal a => k a
  | Throw e => Throw e
  end.

Notation "x <- c ;; k" := (bind c (fun x => k))
  (at level 61, c at next level, right associativity).

(* ------------------------------------------------------------------ *)
(** ** Objects *)

Fixpoint lookup (k : jsstring) (props : list (jsstring * json)) : option json :=
  match props with
  | [] => None
  | (k', v) :: props' => if jsstring_eqb k k' then Some v else lookup k props'
  end.

(** [k: v] in an object literal after a spread: the property keeps its place
    when the object has it, and is added last otherwise. *)
Fixpoint set_property (k : jsstring) (v : json) (props : list (jsstring * json))
  : list (jsstring * json) :=
  match props with
  | [] => [(k, v)]
  | (k', v') :: props' =>
      if jsstring_eqb k k' then (k, v) :: props'
      else (k', v') :: set_property k v props'
  end.

Fixpoint indexed (i : nat) (l : list json) : list (jsstring * json) :=
  match l with
  | [] => []
  | v :: l' => (length_toString i, v) :: indexed (S i) l'
  end.

(** [{...v}]: the own enumerable properties of [v]. *)
Definition spread (v : json) : list (jsstring * json) :=
  match v with
  | JObject props => props
  | JArray l => indexed 0 l
  | JString s => indexed 0 (map (fun c => JString [c]) s)
  | JNull | JBool _ | JNumber _ => []
  end.

Definition spread_option (v : option json) : list (jsstring * json) :=
  match v with
  | Some v' => spread v'
  | None => []
  end.

(* ------------------------------------------------------------------ *)
(** ** Configuration *)

Definition CONTENT_LENGTH_HEADER : jsstring := js "Content-Length: ".

(** [config] (lines 51-55). *)
Record Config := {
  dropAll : bool;
  minSeverity : number;
  debug : bool
}.

(** [process.env]: [None] for a variable that is not set. *)
Definition environment := jsstring -> option jsstring.

(** [v || d] on strings: [undefined] and the empty string are falsy. *)
Definition or_default (v : option jsstring) (d : jsstring) : jsstring :=
  match v with
  | None | Some [] => d
  | Some s => s
  end.

Definition strict_equal (v : option jsstring) (s : jsstring) : bool :=
  match v with
  | Some s' => jsstring_eqb s' s
  | None => false
  end.

Definition config (env : environment) : Config :=
  {| dropAll := negb (strict_equal (env (js "STAY_FRESH_DROP_DIAGNOSTICS")) (js "false"));
     minSeverity := parseInt (or_default (env (js "STAY_FRESH_MIN_SEVERITY")) (js "1"));
     debug := strict_equal (env (js "STAY_FRESH_LOG")) (js "true") |}.

(* ------------------------------------------------------------------ *)
(** ** The message parser *)

(** [Math.trunc] of a finite number. *)
Definition Qtrunc (q : Q) : Z := Z.quot (Qnum q) (Zpos (Qden q)).

(** The offset [subarray] makes of an argument for a buffer of [len] bytes:
    counted from the end when negative, clamped to the buffer. *)
Definition adjustOffset (n : number) (len : nat) : nat :=
  match n with
  | NaN => 0
  | Infinity negative => if negative then 0 else len
  | Finite q =>
      let z := Qtrunc q in
      if (z <? 0)%Z then Z.to_nat (Z.max 0 (Z.of_nat len + z))
      else Nat.min (Z.to_nat z) len
  end.

(** [class MessageParser]: the bytes not yet consumed and the announced body
    length, [None] for [null] (a header is awaited). *)
Record MessageParser := {
  buffer : bytes;
  contentLength : option number
}.

Definition new_MessageParser : MessageParser :=
  {| buffer := []; contentLength := None |}.

(** How one turn of the loop of [drain] ends: the method returns, or the loop
    goes round again; [emitted] are the calls of [onMessage] of the turn. *)
Inductive turn :=
| Return (p : MessageParser)
| Continue (p : MessageParser) (emitted : list json).

(* ------------------------------------------------------------------ *)
(** ** Frames and streams *)

(** A frame: its header block, its body, and the message the body is the
    JSON text of ([valid_frame] says that they fit). *)
Record frame := {
  frame_header : bytes;
  frame_body : bytes;
  frame_message : json
}.

(** A stretch of a stream that may be corrupt: a framed body, valid JSON or
    not, or a header block without a length up to its separator. *)
Inductive segment :=
| Framed (header body : bytes)
| Unparsable (header : bytes).

Definition frame_bytes (f : frame) : bytes :=
  frame_header f ++ CRLFCRLF ++ frame_body f.

(* ------------------------------------------------------------------ *)
(** ** A host to run the embedding on *)

(** A small host for the examples.  Its [JSON.parse] reads the compact JSON
    texts made of objects, arrays, strings without escapes, natural numbers
    and the three literals, and rejects every other text; its
    [JSON.stringify] writes those values back. *)
Module SampleHost.

(** A JSON text of the examples, written with ['] for the double quote. *)
Definition text (s : String.string) : jsstring :=
  map (fun c => if (c =? 39)%N then 34%N else c) (js s).

Definition setenv (vars : list (String.string * String.string)) : environment :=
  fun name =>
    (fix find (l : list (String.string * String.string)) : option jsstring :=
       match l with
       | [] => None
       | (k, v) :: l' => if jsstring_eqb name (js k) then Some (js v) else find l'
       end) vars.

Fixpoint strip_prefix (prefix s : jsstring) : option jsstring :=
  match prefix, s with
  | [], _ => Some s
  | _ :: _, [] => None
  | p :: prefix', c :: s' =>
      if (p =? c)%N then strip_prefix prefix' s' else None
  end.

Fixpoint read_string (s : jsstring) : option (jsstring * jsstring) :=
  match s with
  | [] => None
  | c :: rest =>
      if (c =? 34)%N then Some ([], rest)
      else if (c =? 92)%N then None
      else match read_string rest with
           | Some (str, rest') => Some (c :: str, rest')
           | None => None
           end
  end.

Fixpoint read_value (fuel : nat) (s : jsstring) {struct fuel}
  : option (json * jsstring) :=
  match fuel with
  | O => None
  | S fuel' =>
      let read_elements :=
        fix elements (n : nat) (s : jsstring) : option (list json * jsstring) :=
          match n with
          | O => None
          | S n' =>
              match read_value fuel' s with
              | Some (v, c :: rest) =>
                  if (c =? 93)%N then Some ([v], rest)
                  else if (c =? 44)%N then
                    match elements n' rest with
                    | Some (vs, rest') => Some (v :: vs, rest')
                    | None => None
                    end
                  else None
              | _ => None
              end
          end in
      let read_members :=
        fix members (n : nat) (s : jsstring)
          : option (list (jsstring * json) * jsstring) :=
          match n with
          | O => None
          | S n' =>
              match s with
              | c :: s1 =>
                  if (c =? 34)%N then
                    match read_string s1 with
                    | Some (k, c' :: s2) =>
                        if (c' =? 58)%N then
                          match read_value fuel' s2 with
                          | Some (v, c'' :: rest) =>
                              if (c'' =? 125)%N then Some ([(k, v)], rest)
                              else if (c'' =? 44)%N then
                                match members n' rest with
                                | Some (kvs, rest') => Some ((k, v) :: kvs, rest')
                                | None => None
                                end
                              else None
                          | _ => None
                          end
                        else None
                    | _ => None
                    end
                  else None
              | [] => None
              end
          end in
      match s with
      | [] => None
      | c :: rest =>
          if (c =? 34)%N then
            match read_string rest with
            | Some (str, rest') => Some (JString str, rest')
            | None => None
            end
          else if (c =? 91)%N then
            match rest with
            | c' :: rest' =>
                if (c' =? 93)%N then Some (JArray [], rest')
                else match read_elements (length s) rest with
                     | Some (vs, rest'') => Some (JArray vs, rest'')
                     | None => None
                     end
            | [] => None
            end
          else if (c =? 123)%N then
            match rest with
            | c' :: rest' =>
                if (c' =? 125)%N then Some (JObject [], rest')
                else match read_members (length s) rest with
                     | Some (kvs, rest'') => Some (JObject kvs, rest'')
                     | None => None
                     end
            | [] => None
            end
          else if is_digit c then
            let ds := takeWhile is_digit s in
            Some (JNumber (number_of_Z (digits_value ds)), dropWhile is_digit s)
          else
            match strip_prefix (js "null") s,
                  strip_prefix (js "true") s,
                  strip_prefix (js "false") s with
            | Some rest', _, _ => Some (JNull, rest')
            | _, Some rest', _ => Some (JBool true, rest')
            | _, _, Some rest' => Some (JBool false, rest')
            | _, _, _ => None
            end
      end
  end.

Definition JSON_parse (s : jsstring) : option json :=
  match read_value (length s) s with
  | Some (v, []) => Some v
  | _ => None
  end.

Definition write_number (n : number) : jsstring :=
  match n with
  | Finite q =>
      if (Zpos (Qden q) =? 1)%Z && (0 <=? Qnum q)%Z
      then length_toString (Z.to_nat (Qnum q))
      else js "null"
  | _ => js "null"
  end.

Fixpoint JSON_stringify (v : json) : jsstring :=
  match v with
  | JNull => js "null"
  | JBool b => if b then js "true" else js "false"
  | JNumber n => write_number n
  | JString s => 34%N :: s ++ [34%N]
  | JArray l =>
      91%N ::
      (fix elements (l : list json) : jsstring :=
         match l with
         | [] => []
         | x :: l' =>
             match l' with
             | [] => JSON_stringify x
             | _ :: _ => JSON_stringify x ++ 44%N :: elements l'
             end
         end) l ++ [93%N]
  | JObject props =>
      123%N ::
      (fix members (l : list (jsstring * json)) : jsstring :=
         match l with
         | [] => []
         | (k, x) :: l' =>
             let member := 34%N :: k ++ 34%N :: 58%N :: JSON_stringify x in
             match l' with
             | [] => member
             | _ :: _ => member ++ 44%N :: members l'
             end
         end) props ++ [125%N]
  end.

(** UTF-8 decoding of well-formed input; a byte that starts no sequence is
    read as U+FFFD. *)
Fixpoint toString_utf8 (b : bytes) : jsstring :=
  match b with
  | [] => []
  | x :: rest =>
      let n := Byte.to_N x in
      let cont (y : byte) := (N.land (Byte.to_N y) 63)%N in
      if (n <? 128)%N then n :: toString_utf8 rest
      else match rest with
           | y :: rest1 =>
               if (n <? 192)%N then 65533%N :: toString_utf8 rest
               else if (n <? 224)%N then
                 ((n - 192) * 64 + cont y)%N :: toString_utf8 rest1
               else match rest1 with
                    | z :: rest2 =>
                        if (n <? 240)%N then
                          ((n - 224) * 4096 + cont y * 64 + cont z)%N
                            :: toString_utf8 rest2
                        else match rest2 with
                             | w :: rest3 =>
                                 let c := ((n - 240) * 262144 + cont y * 4096
                                           + cont z * 64 + cont w - 65536)%N in
                                 (55296 + c / 1024)%N :: (56320 + c mod 1024)%N
                                   :: toString_utf8 rest3
                             | [] => 65533%N :: toString_utf8 rest
                             end
                    | [] => 65533%N :: toString_utf8 rest
                    end
           | [] => [65533%N]
           end
  end.

Definition StringToNumber (s : jsstring) : number :=
  match s with
  | [] => number_of_Z 0
  | _ => if forallb is_digit s then round_to_double (digits_value s) else NaN
  end.

Definition NumberToString (n : number) : jsstring :=
  match n with
  | NaN => js "NaN"
  | Infinity negative => if negative then js "-Infinity" else js "Infinity"
  | Finite _ => write_number n
  end.

(** The value of a JSON text of the examples. *)
Definition value (s : String.string) : json :=
  match JSON_parse (text s) with
  | Some v => v
  | None => JNull
  end.

(** A frame as the encoder writes it. *)
Definition framed (s : String.string) : frame :=
  let body := Buffer_from_utf8 (text s) in
  {| frame_header :=
       Buffer_from_ascii (CONTENT_LENGTH_HEADER ++ length_toString (length body));
     frame_body := body;
     frame_message := value s |}.

Definition ascii_bytes (s : String.string) : bytes := Buffer_from_ascii (js s).

(** Two diagnostics, an error and a hint. *)
Definition publish_error_hint : json :=
  Eval vm_compute in
    value "{'jsonrpc':'2.0','method':'textDocument/publishDiagnostics','params':{'uri':'file:///a.ts','diagnostics':[{'severity':1,'message':'e'},{'severity':4,'message':'h'}]}}".

(** The same notification after the filter with threshold 1. *)
Definition publish_error : json :=
  Eval vm_compute in
    value "{'jsonrpc':'2.0','method':'textDocument/publishDiagnostics','params':{'uri':'file:///a.ts','diagnostics':[{'severity':1,'message':'e'}]}}".

(** A warning, and a diagnostic without severity. *)
Definition publish_warning_plain : json :=
  Eval vm_compute in
    value "{'jsonrpc':'2.0','method':'textDocument/publishDiagnostics','params':{'uri':'file:///b.ts','diagnostics':[{'severity':2,'message':'w'},{'message':'m'}]}}".


Definition publish_without_params : json :=
  Eval vm_compute in
    value "{'jsonrpc':'2.0','method':'textDocument/publishDiagnostics'}".

Definition request_foo : json :=
  Eval vm_compute in value "{'jsonrpc':'2.0','id':1,'method':'foo'}".

Definition default_config : Config := config (setenv []).

Definition errors_only : Config :=
  config (setenv [("STAY_FRESH_DROP_DIAGNOSTICS", "false")]).

Definition nothing_kept : Config :=
  config (setenv [("STAY_FRESH_DROP_DIAGNOSTICS", "false");
                  ("STAY_FRESH_MIN_SEVERITY", "0")]).

Definition empty_minSeverity : environment :=
  setenv [("STAY_FRESH_MIN_SEVERITY", "")].

Definition two_frames : list frame :=
  [framed "{'jsonrpc':'2.0','id':1,'result':null}";
   framed "{'jsonrpc':'2.0','method':'foo'}"].

(** A header block without a length, a frame whose body is not JSON, and a
    valid frame. *)
Definition corrupt_stream : list segment :=
  [Unparsable (ascii_bytes "Content-Type: text/plain");
   Framed (ascii_bytes "Content-Length: 7") (ascii_bytes "{'a':1}");
   Framed (ascii_bytes "content-length:16") (Buffer_from_utf8 (text "{'method':'foo'}"))].

(** A notification whose [uri] is an object with a property [toString]. *)
Definition publish_odd_uri : json :=
  Eval vm_compute in
    value "{'jsonrpc':'2.0','method':'textDocument/publishDiagnostics','params':{'uri':{'toString':1},'diagnostics':[]}}".

(** The string made of the letter e with an acute accent: one code unit, two
    bytes. *)
Definition e_acute : json := JString [233%N].

(** A frame, and a stream in which it comes after a frame whose header has a
    misspelt length field and whose body is the text [Content-Length:99]. *)
Definition lost_frame : frame := framed "{'method':'foo'}".

Definition misspelt_header : bytes := ascii_bytes "Content-Len: 17".

Definition desynchronised_stream : bytes :=
  misspelt_header ++ CRLFCRLF ++ ascii_bytes "Content-Length:99"
    ++ frame_bytes lost_frame.

(** Thresholds 2 and 4, and a threshold that is not a number. *)
Definition warnings_too : Config :=
  config (setenv [("STAY_FRESH_DROP_DIAGNOSTICS", "false");
                  ("STAY_FRESH_MIN_SEVERITY", "2")]).

Definition hints_too : Config :=
  config (setenv [("STAY_FRESH_DROP_DIAGNOSTICS", "false");
                  ("STAY_FRESH_MIN_SEVERITY", "4")]).

Definition not_a_number : Config :=
  config (setenv [("STAY_FRESH_DROP_DIAGNOSTICS", "false");
                  ("STAY_FRESH_MIN_SEVERITY", "high")]).

(** A publish-diagnostics frame followed by two frames of other methods. *)
Definition three_frames : list frame :=
  framed "{'jsonrpc':'2.0','method':'textDocument/publishDiagnostics','params':{'uri':'file:///a.ts','diagnostics':[]}}"
    :: two_frames.

(** [JSON.stringify(v, null, 2)]: a member or element per line, two spaces
    for each level. *)
Definition indentation (depth : nat) : jsstring :=
  10%N :: repeat 32%N (2 * depth).

Fixpoint JSON_stringify_indent_at (depth : nat) (v : json) : jsstring :=
  match v with
  | JArray ((_ :: _) as l) =>
      91%N ::
      (fix elements (l : list json) : jsstring :=
         match l with
         | [] => []
         | x :: l' =>
             indentation (S depth) ++ JSON_stringify_indent_at (S depth) x ++
             match l' with
             | [] => []
             | _ :: _ => 44%N :: elements l'
             end
         end) l ++ indentation depth ++ [93%N]
  | JObject ((_ :: _) as props) =>
      123%N ::
      (fix members (l : list (jsstring * json)) : jsstring :=
         match l with
         | [] => []
         | (k, x) :: l' =>
             indentation (S depth) ++
             34%N :: k ++ 34%N :: 58%N :: 32%N ::
             JSON_stringify_indent_at (S depth) x ++
             match l' with
             | [] => []
             | _ :: _ => 44%N :: members l'
             end
         end) props ++ indentation depth ++ [125%N]
  | _ => JSON_stringify v
  end.

Definition JSON_stringify_indent (v : json) : jsstring :=
  JSON_stringify_indent_at 0 v.

(** A text of several lines, each ended by a line feed. *)
Definition lines (l : list String.string) : jsstring :=
  concat (map (fun s => text s ++ [10%N]) l).

(** The text without the white space between its tokens. *)
Fixpoint unspaced (in_string : bool) (s : jsstring) : jsstring :=
  match s with
  | [] => []
  | c :: rest =>
      if in_string then c :: unspaced (negb (c =? 34)%N) rest
      else if (c =? 34)%N then c :: unspaced true rest
      else if (c =? 32)%N || (c =? 10)%N || (c =? 13)%N || (c =? 9)%N
           then unspaced false rest
           else c :: unspaced false rest
  end.

(** [JSON.parse] of a settings file of the examples. *)
Definition JSON_parse_file (s : jsstring) : option json :=
  JSON_parse (unspaced false s).

(** A settings file with a variable and a setting of the user, and its
    settings before and after [ensureEnableLspTool]. *)
Definition settings_text : jsstring :=
  text "{ 'env': {'PATH':'p'}, 'theme': 'dark' }".

Definition settings : json :=
  Eval vm_compute in value "{'env':{'PATH':'p'},'theme':'dark'}".

Definition settings_installed : json :=
  Eval vm_compute in
    value "{'env':{'PATH':'p','ENABLE_LSP_TOOL':'1'},'theme':'dark'}".

End SampleHost.

Section Proxy.

(** [JSON.parse]: [None] when it throws. *)
Variable JSON_parse : jsstring -> option json.
(** [JSON.stringify]. *)
Variable JSON_stringify : json -> jsstring.
(** [buf.toString("utf-8")]. *)
Variable toString_utf8 : bytes -> jsstring.
(** [Number(s)] of a string and [String(n)] of a number. *)
Variable StringToNumber : jsstring -> number.
Variable NumberToString : number -> jsstring.

(** Lines 131-141: the body of the announced length [len], once the header
    is consumed.  An exception of [JSON.parse] or of the callback is caught
    and the loop goes on. *)
Definition drain_body (buf : bytes) (len : number) : turn :=
  if number_lt (number_of_nat (length buf)) len then
    Return {| buffer := buf; contentLength := Some len |}
  else
    let n := adjustOffset len (length buf) in
    let body := toString_utf8 (firstn n buf) in
    Continue {| buffer := skipn n buf; contentLength := None |}
             (match JSON_parse body with
              | Some msg => [msg]
              | None => []
              end).

(** Lines 115-141: one turn of [while (true)]. *)
Definition drain_turn (p : MessageParser) : turn :=
  match contentLength p with
  | None =>
      match indexOf CRLFCRLF (buffer p) with
      | None => Return p
      | Some headerEnd =>
          let headerBlock := toString_ascii (firstn headerEnd (buffer p)) in
          let rest := skipn (headerEnd + 4) (buffer p) in
          match header_match headerBlock with
          | None => Continue {| buffer := rest; contentLength := None |} []
          | Some digits => drain_body rest (parseInt digits)
          end
      end
  | Some len => drain_body (buffer p) len
  end.

(** The loop, with a bound on its turns; [None] when the bound is hit. *)
Fixpoint drain_loop (turns : nat) (p : MessageParser)
  : option (MessageParser * list json) :=
  match turns with
  | O => None
  | S turns' =>
      match drain_turn p with
      | Return p' => Some (p', [])
      | Continue p' emitted =>
          match drain_loop turns' p' with
          | Some (p'', later) => Some (p'', emitted ++ later)
          | None => None
          end
      end
  end.

(** A turn that goes round again has consumed input or left the body state:
    this number goes down. *)
Definition pending (p : MessageParser) : nat :=
  length (buffer p) + match contentLength p with Some _ => 1 | None => 0 end.

(** [drain]: the parser after the loop and the messages handed to
    [onMessage], in call order.  The bound is never hit: the loop returns
    within it ([drain_loop_returns], [drain_loop_drain]). *)
Definition drain (p : MessageParser) : MessageParser * list json :=
  match drain_loop (S (pending p)) p with
  | Some r => r
  | None => (p, [])
  end.

Definition append (p : MessageParser) (chunk : bytes) : MessageParser :=
  {| buffer := buffer p ++ chunk; contentLength := contentLength p |}.

(** [feed(chunk, onMessage)]. *)
Definition feed (p : MessageParser) (chunk : bytes) : MessageParser * list json :=
  drain (append p chunk).

(** Successive calls of [feed], one per chunk. *)
Fixpoint feed_all (p : MessageParser) (chunks : list bytes)
  : MessageParser * list json :=
  match chunks with
  | [] => (p, [])
  | chunk :: chunks' =>
      let (p', emitted) := feed p chunk in
      let (p'', later) := feed_all p' chunks' in
      (p'', emitted ++ later)
  end.

(* ---------------------------------------------------------------- *)
(** *** The frame encoder *)

(** [encodeMessage] (lines 68-72). *)
Definition encodeMessage (msg : json) : bytes :=
  let body := Buffer_from_utf8 (JSON_stringify msg) in
  let header :=
    CONTENT_LENGTH_HEADER ++ length_toString (length body) ++ [13; 10; 13; 10]%N in
  Buffer_from_ascii header ++ body.

(* ---------------------------------------------------------------- *)
(** *** The diagnostic filter *)

(** [v.k], for the property names the program reads ([method], [params],
    [uri], [diagnostics], [severity]); no built-in prototype defines one of
    them, so only an object can have it.  [None] is [undefined]. *)
Definition Get (v : json) (k : jsstring) : completion (option json) :=
  match v with
  | JNull => Throw TypeError
  | JObject props => Normal (lookup k props)
  | _ => Normal None
  end.

Definition GetV (v : option json) (k : jsstring) : completion (option json) :=
  match v with
  | None => Throw TypeError
  | Some v' => Get v' k
  end.

(** [String(v)], the conversion of a template literal.  An array joins its
    elements with commas; an object is ["[object Object]"] unless a property
    of its own hides [toString], and then nothing callable is left to
    convert it. *)
Fixpoint ToString (v : json) : completion jsstring :=
  match v with
  | JNull => Normal (js "null")
  | JBool b => Normal (if b then js "true" else js "false")
  | JNumber n => Normal (NumberToString n)
  | JString s => Normal s
  | JArray elements =>
      (fix join (l : list json) : completion jsstring :=
         match l with
         | [] => Normal []
         | x :: l' =>
             s <- match x with JNull => Normal [] | _ => ToString x end;;
             match l' with
             | [] => Normal s
             | _ :: _ => r <- join l';; Normal (s ++ js "," ++ r)
             end
         end) elements
  | JObject props =>
      match lookup (js "toString") props with
      | Some _ => Throw TypeError
      | None => Normal (js "[object Object]")
      end
  end.

Definition ToStringV (v : option json) : completion jsstring :=
  match v with
  | None => Normal (js "undefined")
  | Some v' => ToString v'
  end.

(** [Number(v)], the conversion [<=] applies to an operand when the other
    one is a number. *)
Definition ToNumber (v : json) : completion number :=
  match v with
  | JNull => Normal (number_of_Z 0)
  | JBool b => Normal (number_of_Z (if b then 1 else 0))
  | JNumber n => Normal n
  | JString s => Normal (StringToNumber s)
  | JArray _ | JObject _ => s <- ToString v;; Normal (StringToNumber s)
  end.

(** [log(...)] (lines 61-66): the arguments are evaluated by the caller; the
    line goes to the log file when [debug] is set and nowhere else. *)
Definition log (cfg : Config) (line : jsstring) : completion unit := Normal tt.

(** The callback of [filter] (lines 85-88). *)
Definition keep_diagnostic (cfg : Config) (d : json) : completion bool :=
  s <- Get d (js "severity");;
  let severity :=
    match s with
    | None | Some JNull => JNumber (number_of_Z 1)
    | Some v => v
    end in
  n <- ToNumber severity;;
  Normal (number_le n (minSeverity cfg)).

(** [Array.prototype.filter]. *)
Fixpoint Array_filter (f : json -> completion bool) (l : list json)
  : completion (list json) :=
  match l with
  | [] => Normal []
  | d :: l' =>
      b <- f d;;
      r <- Array_filter f l';;
      Normal (if b then d :: r else r)
  end.

Definition is_publishDiagnostics (method : option json) : bool :=
  match method with
  | Some (JString s) => jsstring_eqb s (js "textDocument/publishDiagnostics")
  | _ => false
  end.

(** [filterDiagnostics] (lines 74-98); [None] is the [null] it returns. *)
Definition filterDiagnostics (cfg : Config) (msg : json)
  : completion (option json) :=
  method <- Get msg (js "method");;
  if negb (is_publishDiagnostics method) then Normal (Some msg)
  else if dropAll cfg then
    params <- Get msg (js "params");;
    uri <- match params with
           | None | Some JNull => Normal None
           | Some p => Get p (js "uri")
           end;;
    text <- ToStringV uri;;
    _ <- log cfg (js "Dropping diagnostics for " ++ text);;
    Normal None
  else
    params <- Get msg (js "params");;
    diagnostics <- GetV params (js "diagnostics");;
    match diagnostics with
    | Some (JArray ds) =>
        filtered <- Array_filter (keep_diagnostic cfg) ds;;
        uri <- GetV params (js "uri");;
        text <- ToStringV uri;;
        _ <- log cfg (js "Filtered diagnostics for " ++ text ++ js ": "
                        ++ length_toString (length ds) ++ [32; 8594; 32]%N
                        ++ length_toString (length filtered));;
        Normal (Some (JObject
          (set_property (js "params")
             (JObject (set_property (js "diagnostics") (JArray filtered)
                         (spread_option params)))
             (spread msg))))
    | _ => Throw TypeError
    end.

(* ---------------------------------------------------------------- *)
(** *** The server-to-client path *)

Definition truthy (v : json) : bool :=
  match v with
  | JNull => false
  | JBool b => b
  | JNumber NaN => false
  | JNumber (Finite q) => negb (Qeq_bool q 0)
  | JNumber (Infinity _) => true
  | JString s => match s with [] => false | _ => true end
  | JArray _ | JObject _ => true
  end.

(** The callback [startProxy] gives to [feed] (lines 191-196): the bytes it
    writes to the client. *)
Definition forward (cfg : Config) (msg : json) : completion bytes :=
  filtered <- filterDiagnostics cfg msg;;
  match filtered with
  | Some m => if truthy m then Normal (encodeMessage m) else Normal []
  | None => Normal []
  end.

(** What reaches the client for one parsed message: [drain] catches what
    the callback throws (lines 137-141). *)
Definition written (cfg : Config) (msg : json) : bytes :=
  match forward cfg msg with
  | Normal out => out
  | Throw _ => []
  end.

(** The handler of the server's output (lines 190-197): the parser after
    the chunk and the bytes written to the client. *)
Definition on_data (cfg : Config) (p : MessageParser) (chunk : bytes)
  : MessageParser * bytes :=
  let (p', emitted) := feed p chunk in
  (p', concat (map (written cfg) emitted)).

(** The threshold as the claim about [STAY_FRESH_MIN_SEVERITY] words it:
    1 for a variable that is not set, [parseInt] of every value that is. *)
Definition minSeverity_as_claimed (env : environment) : number :=
  match env (js "STAY_FRESH_MIN_SEVERITY") with
  | None => number_of_Z 1
  | Some value => parseInt value
  end.

(* ---------------------------------------------------------------- *)
(** *** The settings file of the installer ([src/setup.ts]) *)

(** [JSON.stringify(v, null, 2)]. *)
Variable JSON_stringify_indent : json -> jsstring.

Definition ENABLE_LSP_TOOL : jsstring := js "ENABLE_LSP_TOOL".

(** [target.k = v] in the code of a module, which is strict, for a key that
    is no array index: an object takes the property, an array takes it
    too but no JSON text of the array shows it, [null] and the primitive
    values throw. *)
Definition assign (target : json) (k : jsstring) (v : json) : completion json :=
  match target with
  | JObject props => Normal (JObject (set_property k v props))
  | JArray l => Normal (JArray l)
  | JNull | JBool _ | JNumber _ | JString _ => Throw TypeError
  end.

Fixpoint delete_property (k : jsstring) (props : list (jsstring * json))
  : list (jsstring * json) :=
  match props with
  | [] => []
  | (k', v) :: props' =>
      if jsstring_eqb k k' then delete_property k props'
      else (k', v) :: delete_property k props'
  end.

(** [delete target.k], for a key that is no array index. *)
Definition delete (target : json) (k : jsstring) : json :=
  match target with
  | JObject props => JObject (delete_property k props)
  | _ => target
  end.

(** [k in v], for a key that no built-in prototype defines: [in] throws on
    a value that is not an object. *)
Definition has_property (v : json) (k : jsstring) : completion bool :=
  match v with
  | JObject props =>
      Normal (match lookup k props with Some _ => true | None => false end)
  | JArray _ => Normal false
  | JNull | JBool _ | JNumber _ | JString _ => Throw TypeError
  end.

(** [Object.keys(v).length === 0]. *)
Definition no_keys (v : json) : bool :=
  match spread v with
  | [] => true
  | _ :: _ => false
  end.

(** [ensureEnableLspTool], lines 113-121, on the settings read: the settings
    it writes, [None] when it returns at line 116 without writing. *)
Definition ensure_settings (settings : json) : completion (option json) :=
  e <- Get settings (js "env");;
  let env :=
    match e with
    | Some v => if truthy v then v else JObject []
    | None => JObject []
    end in
  flag <- Get env ENABLE_LSP_TOOL;;
  if match flag with
     | Some (JString s) => jsstring_eqb s (js "1")
     | _ => false
     end
  then Normal None
  else
    env' <- assign env ENABLE_LSP_TOOL (JString (js "1"));;
    settings' <- assign settings (js "env") env';;
    Normal (Some settings').

(** [ensureEnableLspTool] (lines 95-123).  [file] is the text of
    [~/.claude/settings.json], [None] when the file does not exist; the
    result is the file after the call. *)
Definition ensureEnableLspTool (file : option jsstring)
  : completion (option jsstring) :=
  let settings :=
    match file with
    | Some text =>
        match JSON_parse text with
        | Some v => v
        | None => JObject []
        end
    | None => JObject []
    end in
  written <- ensure_settings settings;;
  match written with
  | Some settings' => Normal (Some (JSON_stringify_indent settings' ++ [10%N]))
  | None => Normal file
  end.

(** [removeEnableLspTool], lines 136-146, on the settings read. *)
Definition remove_settings (settings : json) : completion (option json) :=
  e <- Get settings (js "env");;
  match e with
  | None => Normal None
  | Some env =>
      if negb (truthy env) then Normal None
      else
        has <- has_property env ENABLE_LSP_TOOL;;
        if negb has then Normal None
        else
          let env' := delete env ENABLE_LSP_TOOL in
          settings' <- (if no_keys env' then Normal (delete settings (js "env"))
                        else assign settings (js "env") env');;
          Normal (Some settings')
  end.

(** [removeEnableLspTool] (lines 125-148): the file after the call. *)
Definition removeEnableLspTool (file : option jsstring)
  : completion (option jsstring) :=
  match file with
  | None => Normal file
  | Some text =>
      match JSON_parse text with
      | None => Normal file
      | Some settings =>
          written <- remove_settings settings;;
          match written with
          | Some settings' =>
              Normal (Some (JSON_stringify_indent settings' ++ [10%N]))
          | None => Normal file
          end
      end
  end.

(** Settings that [install] followed by [uninstall] gives back: an object
    without [env], or whose [env] is an object with other variables and
    without [ENABLE_LSP_TOOL]. *)
Definition without_flag (props : list (jsstring * json)) : Prop :=
  lookup (js "env") props = None \/
  exists eprops,
    lookup (js "env") props = Some (JObject eprops) /\
    eprops <> [] /\ lookup ENABLE_LSP_TOOL eprops = None.

(* ---------------------------------------------------------------- *)
(** *** Vocabulary of the statements *)

(** No complete frame is left in the parser: no separator while a header is
    awaited, fewer bytes than announced while a body is. *)
Definition no_complete_frame (p : MessageParser) : Prop :=
  match contentLength p with
  | None => indexOf CRLFCRLF (buffer p) = None
  | Some len => number_lt (number_of_nat (length (buffer p))) len = true
  end.

(** What [parseInt] makes of a run of digits: a natural number or
    [Infinity]. *)
Definition is_length (n : number) : Prop :=
  n = Infinity false \/ exists z, (0 <= z)%Z /\ n = number_of_Z z.

(** The states the parser can be in. *)
Definition parser_ok (p : MessageParser) : Prop :=
  match contentLength p with
  | None => True
  | Some len => is_length len
  end.

(** The parts of a message the statements speak of. *)
Definition property (v : option json) (k : jsstring) : option json :=
  match v with
  | Some (JObject props) => lookup k props
  | _ => None
  end.

Definition method_of (msg : json) : option json := property (Some msg) (js "method").
Definition params_of (msg : json) : option json := property (Some msg) (js "params").
Definition uri_of (msg : json) : option json := property (params_of msg) (js "uri").

Definition diagnostics_of (msg : json) : option (list json) :=
  match property (params_of msg) (js "diagnostics") with
  | Some (JArray ds) => Some ds
  | _ => None
  end.

(** The message is a publish-diagnostics notification. *)
Definition is_publish (msg : json) : bool := is_publishDiagnostics (method_of msg).

(** [interface Diagnostic]: an object whose [severity], when present, is a
    number. *)
Definition is_Diagnostic (d : json) : Prop :=
  match d with
  | JObject props =>
      match lookup (js "severity") props with
      | None | Some (JNumber _) => True
      | Some _ => False
      end
  | _ => False
  end.

(** The severity the filter compares: a missing one counts as 1. *)
Definition severity_of (d : json) : number :=
  match property (Some d) (js "severity") with
  | Some (JNumber n) => n
  | _ => number_of_Z 1
  end.

(** [msg] is a publish-diagnostics notification whose payload has the shape
    of [interface PublishDiagnosticsParams]: the target [uri] and the
    diagnostics [ds]. *)
Definition publishes (msg : json) (uri : jsstring) (ds : list json) : Prop :=
  is_publish msg = true /\
  uri_of msg = Some (JString uri) /\
  diagnostics_of msg = Some ds /\
  Forall is_Diagnostic ds.

(** The diagnostics the specification retains for the threshold [T]: those
    of severity at most [T], in their order. *)
Definition retained (T : number) (ds : list json) : list json :=
  filter (fun d => number_le (severity_of d) T) ds.

(** The header block [header] (the bytes before the separator) announces a
    body of [n] bytes: the separator that follows it is the first one, and
    the parser reads the length [n] in it. *)
Definition announces (header : bytes) (n : nat) : Prop :=
  indexOf CRLFCRLF (header ++ CRLFCRLF) = Some (length header) /\
  exists digits,
    header_match (toString_ascii header) = Some digits /\
    parseInt digits = number_of_nat n.

(** A header block in which the parser finds no length. *)
Definition unparsable (header : bytes) : Prop :=
  indexOf CRLFCRLF (header ++ CRLFCRLF) = Some (length header) /\
  header_match (toString_ascii header) = None.

(** A valid frame: the header block announces the length of the body, and
    the body is the JSON text of the message. *)
Definition valid_frame (f : frame) : Prop :=
  announces (frame_header f) (length (frame_body f)) /\
  JSON_parse (toString_utf8 (frame_body f)) = Some (frame_message f).

Definition segment_bytes (s : segment) : bytes :=
  match s with
  | Framed header body => header ++ CRLFCRLF ++ body
  | Unparsable header => header ++ CRLFCRLF
  end.

Definition segment_ok (s : segment) : Prop :=
  match s with
  | Framed header body => announces header (length body)
  | Unparsable header => unparsable header
  end.

(** What the parser owes for a segment: the message of a body that is JSON,
    nothing for a body that is not, nothing for an unparsable header. *)
Definition segment_messages (s : segment) : list json :=
  match s with
  | Framed _ body =>
      match JSON_parse (toString_utf8 body) with
      | Some msg => [msg]
      | None => []
      end
  | Unparsable _ => []
  end.

(** Successive [data] events of the server's output: the parser after the
    last one and all the bytes written to the client. *)
Fixpoint on_data_all (cfg : Config) (p : MessageParser) (chunks : list bytes)
  : MessageParser * bytes :=
  match chunks with
  | [] => (p, [])
  | chunk :: chunks' =>
      let (p', out) := on_data cfg p chunk in
      let (p'', later) := on_data_all cfg p' chunks' in
      (p'', out ++ later)
  end.

(** [kept] is [l] with some elements left out. *)
Inductive subsequence {A : Type} : list A -> list A -> Prop :=
| subsequence_nil : subsequence [] []
| subsequence_keep x kept l : subsequence kept l -> subsequence (x :: kept) (x :: l)
| subsequence_drop x kept l : subsequence kept l -> subsequence kept (x :: l).

(** The host reads the text it writes for [msg] back as [msg], and the text
    has fewer than 2^53 bytes (more than a buffer holds). *)
Definition reads_back (msg : json) : Prop :=
  (Z.of_nat (length (Buffer_from_utf8 (JSON_stringify msg))) < 2 ^ 53)%Z /\
  JSON_parse (toString_utf8 (Buffer_from_utf8 (JSON_stringify msg))) = Some msg.

(** Two strings that differ in the case of ASCII letters only. *)
Definition same_but_case (s s' : jsstring) : Prop :=
  map canonicalize s = map canonicalize s'.

(** The message is a JSON object. *)
Definition is_object (msg : json) : Prop := exists props, msg = JObject props.


(* ================================================================ *)
(** ** Lists and searches *)

Lemma starts_with_app needle hay tail :
  starts_with needle hay = true -> starts_with needle (hay ++ tail) = true.
Proof.
  revert hay; induction needle as [|x needle IH]; intros [|y hay]; simpl; auto.
  - discriminate.
  - intros H. apply andb_true_iff in H as [-> H]. simpl. auto.
Qed.

Lemma starts_with_length needle hay :
  starts_with needle hay = true -> length needle <= length hay.
Proof.
  revert hay; induction needle as [|x needle IH]; intros [|y hay]; simpl;
    try lia; try discriminate.
  intros H. apply andb_true_iff in H as [_ H]. apply IH in H. lia.
Qed.

Lemma starts_with_self needle tail : starts_with needle (needle ++ tail) = true.
Proof.
  induction needle as [|x needle IH]; simpl; auto.
  rewrite IH, andb_true_r. apply Byte.byte_dec_lb. reflexivity.
Qed.

Lemma starts_with_app_fits needle hay tail :
  length needle <= length hay ->
  starts_with needle (hay ++ tail) = starts_with needle hay.
Proof.
  revert hay; induction needle as [|x needle IH]; intros [|y hay]; simpl;
    auto; try lia.
  intros H. rewrite IH by lia. reflexivity.
Qed.

Lemma indexOf_bound needle hay i :
  indexOf needle hay = Some i -> i + length needle <= length hay.
Proof.
  revert i; induction hay as [|y hay IH]; intros i; simpl.
  - destruct (starts_with needle []) eqn:E; [|discriminate].
    intros H. injection H as <-. apply starts_with_length in E. simpl in *. lia.
  - destruct (starts_with needle (y :: hay)) eqn:E.
    + intros H. injection H as <-. apply starts_with_length in E. simpl in *. lia.
    + destruct (indexOf needle hay) as [j|]; [|discriminate].
      simpl. intros H. injection H as <-. specialize (IH _ eq_refl). lia.
Qed.

Lemma indexOf_app needle hay tail i :
  indexOf needle hay = Some i -> indexOf needle (hay ++ tail) = Some i.
Proof.
  revert i; induction hay as [|y hay IH]; intros i H.
  - simpl in H. destruct (starts_with needle []) eqn:E; [|discriminate].
    destruct needle; [|discriminate]. destruct tail; exact H.
  - pose proof (indexOf_bound _ _ _ H) as Hb.
    change ((y :: hay) ++ tail) with (y :: hay ++ tail).
    simpl in H |- *.
    change (y :: hay ++ tail) with ((y :: hay) ++ tail).
    rewrite starts_with_app_fits by lia.
    destruct (starts_with needle (y :: hay)); [exact H|].
    destruct (indexOf needle hay) as [j|]; [|discriminate].
    now rewrite (IH j eq_refl).
Qed.

Lemma firstn_app_le {A} (l tail : list A) n :
  n <= length l -> firstn n (l ++ tail) = firstn n l.
Proof.
  intros H. rewrite firstn_app.
  replace (n - length l) with 0 by lia. simpl. apply app_nil_r.
Qed.

Lemma skipn_app_le {A} (l tail : list A) n :
  n <= length l -> skipn n (l ++ tail) = skipn n l ++ tail.
Proof.
  intros H. rewrite skipn_app.
  replace (n - length l) with 0 by lia. reflexivity.
Qed.

(* ================================================================ *)
(** ** Numbers *)

Lemma Qle_bool_inject_Z a b :
  Qle_bool (inject_Z a) (inject_Z b) = (a <=? b)%Z.
Proof. unfold Qle_bool; simpl. now rewrite !Z.mul_1_r. Qed.

Lemma number_lt_nat_Z n z :
  number_lt (number_of_nat n) (number_of_Z z) = (Z.of_nat n <? z)%Z.
Proof.
  unfold number_of_nat, number_of_Z; simpl. unfold Qlt_bool.
  rewrite Qle_bool_inject_Z. now rewrite Z.ltb_antisym.
Qed.

Lemma number_lt_longer a b len :
  is_length len -> a <= b ->
  number_lt (number_of_nat a) len = false ->
  number_lt (number_of_nat b) len = false.
Proof.
  intros [-> | (z & Hz & ->)] Hab; [discriminate|].
  rewrite !number_lt_nat_Z, !Z.ltb_ge. lia.
Qed.

Lemma Qtrunc_inject_Z z : Qtrunc (inject_Z z) = z.
Proof. unfold Qtrunc; simpl. apply Z.quot_1_r. Qed.

Lemma adjustOffset_fits len n :
  is_length len ->
  number_lt (number_of_nat n) len = false ->
  exists k, k <= n /\ len = number_of_nat k /\
            forall m, n <= m -> adjustOffset len m = k.
Proof.
  intros [-> | (z & Hz & ->)]; [discriminate|].
  rewrite number_lt_nat_Z, Z.ltb_ge. intros Hle.
  exists (Z.to_nat z). split; [lia|]. split.
  - unfold number_of_nat. now rewrite Z2Nat.id.
  - intros m Hm. unfold adjustOffset, number_of_Z.
    rewrite Qtrunc_inject_Z.
    destruct (z <? 0)%Z eqn:E; [apply Z.ltb_lt in E; lia|].
    apply Nat.min_l. lia.
Qed.

Lemma takeWhile_Forall {A} (f : A -> bool) l :
  Forall (fun x => f x = true) (takeWhile f l).
Proof.
  induction l as [|x l IH]; simpl; [constructor|].
  destruct (f x) eqn:E; constructor; auto.
Qed.

Lemma takeWhile_all {A} (f : A -> bool) l :
  Forall (fun x => f x = true) l -> takeWhile f l = l.
Proof. induction 1 as [|x l Hx _ IH]; simpl; [|rewrite Hx, IH]; reflexivity. Qed.

Lemma is_digit_range c : is_digit c = true <-> (48 <= c <= 57)%N.
Proof.
  unfold is_digit. rewrite andb_true_iff, !N.leb_le. reflexivity.
Qed.

Lemma digit_not_whitespace c : is_digit c = true -> is_whitespace c = false.
Proof.
  rewrite is_digit_range. intros H. unfold is_whitespace.
  repeat match goal with
         | |- (_ || _)%bool = false => apply orb_false_intro
         | |- (_ && _)%bool = false => apply andb_false_iff
         | |- (_ =? _)%N = false => apply N.eqb_neq; lia
         end.
  - right. apply N.leb_gt. lia.
  - left. apply N.leb_gt. lia.
Qed.

Lemma digits_value_step ds acc :
  Forall (fun c => is_digit c = true) ds -> (0 <= acc)%Z ->
  (0 <= fold_left (fun a d => 10 * a + (Z.of_N d - 48)) ds acc)%Z.
Proof.
  intros H; revert acc; induction H as [|c ds Hc _ IH]; intros acc Hacc;
    cbn [fold_left]; [exact Hacc|].
  apply IH. apply is_digit_range in Hc. lia.
Qed.

Lemma digits_value_nonneg ds :
  Forall (fun c => is_digit c = true) ds -> (0 <= digits_value ds)%Z.
Proof. intros H. apply digits_value_step; [exact H|lia]. Qed.

Lemma round_to_double_small z :
  (z < 2 ^ 53)%Z -> round_to_double z = number_of_Z z.
Proof.
  intros H. unfold round_to_double.
  destruct (z <? 2 ^ 53)%Z eqn:E; [reflexivity|].
  apply Z.ltb_ge in E. lia.
Qed.

Lemma round_to_double_is_length z :
  (0 <= z)%Z -> is_length (round_to_double z).
Proof.
  intros Hz. unfold round_to_double.
  destruct (z <? 2 ^ 53)%Z; [right; eauto|].
  set (e := (Z.log2 z - 52)%Z).
  set (q := Z.shiftr z e).
  match goal with |- context [Z.shiftl ?x e] => set (q' := x) end.
  destruct (2 ^ 1024 <=? Z.shiftl q' e)%Z; [left; reflexivity|].
  right. exists (Z.shiftl q' e). split; [|reflexivity].
  apply Z.shiftl_nonneg.
  assert (0 <= q)%Z by (apply Z.shiftr_nonneg; exact Hz).
  subst q'. match goal with |- context [if ?c then _ else _] => destruct c end; lia.
Qed.

(** [parseInt] of a run of digits is the nearest double of its value. *)
Lemma parseInt_digits ds :
  ds <> [] -> Forall (fun c => is_digit c = true) ds ->
  parseInt ds = round_to_double (digits_value ds).
Proof.
  intros Hne Hall. unfold parseInt.
  destruct ds as [|c ds]; [contradiction|].
  pose proof (Forall_inv Hall) as Hc.
  simpl dropWhile. rewrite (digit_not_whitespace _ Hc).
  apply is_digit_range in Hc.
  replace (c =? 45)%N with false by (symmetry; apply N.eqb_neq; lia).
  replace (c =? 43)%N with false by (symmetry; apply N.eqb_neq; lia).
  simpl orb. cbv iota. rewrite (takeWhile_all _ _ Hall).
  pose proof (round_to_double_is_length _ (digits_value_nonneg _ Hall)) as Hr.
  destruct Hr as [-> | (z & _ & ->)]; reflexivity.
Qed.

Lemma match_here_digits s ds :
  match_here s = Some ds ->
  ds <> [] /\ Forall (fun c => is_digit c = true) ds.
Proof.
  unfold match_here. destruct (match_literal_ci _ s) as [rest|]; [|discriminate].
  pose proof (takeWhile_Forall is_digit (dropWhile is_whitespace rest)) as H.
  destruct (takeWhile is_digit _) as [|d ds']; [discriminate|].
  intros E. injection E as <-. split; [discriminate|exact H].
Qed.

Lemma header_match_digits s ds :
  header_match s = Some ds ->
  ds <> [] /\ Forall (fun c => is_digit c = true) ds.
Proof.
  induction s as [|c s IH]; cbn [header_match].
  - destruct (match_here []) eqn:E; [|discriminate].
    intros H. injection H as <-. now apply match_here_digits in E.
  - destruct (match_here (c :: s)) eqn:E; [|exact IH].
    intros H. injection H as <-. now apply match_here_digits in E.
Qed.

Lemma header_match_is_length s ds :
  header_match s = Some ds -> is_length (parseInt ds).
Proof.
  intros H. apply header_match_digits in H as [Hne Hall].
  rewrite (parseInt_digits _ Hne Hall).
  apply round_to_double_is_length, digits_value_nonneg, Hall.
Qed.

(* ================================================================ *)
(** ** The loop of [drain] *)

Lemma drain_body_Return buf len p :
  drain_body buf len = Return p ->
  p = {| buffer := buf; contentLength := Some len |} /\
  number_lt (number_of_nat (length buf)) len = true.
Proof.
  unfold drain_body.
  destruct (number_lt (number_of_nat (length buf)) len); [|discriminate].
  intros H. injection H as <-. auto.
Qed.

Lemma drain_body_Continue buf len p emitted :
  drain_body buf len = Continue p emitted ->
  number_lt (number_of_nat (length buf)) len = false /\
  contentLength p = None /\
  buffer p = skipn (adjustOffset len (length buf)) buf.
Proof.
  unfold drain_body.
  destruct (number_lt (number_of_nat (length buf)) len); [discriminate|].
  intros H. injection H as <- _. auto.
Qed.

(** A turn that goes round again leaves less to do. *)
Lemma drain_turn_pending p p' emitted :
  drain_turn p = Continue p' emitted -> pending p' < pending p.
Proof.
  unfold drain_turn, pending.
  destruct (contentLength p) as [len|].
  - intros H. apply drain_body_Continue in H as (_ & -> & ->).
    rewrite length_skipn. lia.
  - destruct (indexOf CRLFCRLF (buffer p)) as [headerEnd|] eqn:Ei; [|discriminate].
    apply indexOf_bound in Ei. simpl in Ei.
    destruct (header_match _).
    + intros H. apply drain_body_Continue in H as (_ & -> & ->).
      rewrite !length_skipn. lia.
    + intros H. injection H as <- _. simpl. rewrite length_skipn. lia.
Qed.

Lemma drain_loop_returns turns p :
  pending p < turns -> exists r, drain_loop turns p = Some r.
Proof.
  revert p; induction turns as [|turns IH]; intros p H; [lia|].
  simpl. destruct (drain_turn p) as [p'|p' emitted] eqn:E; [eauto|].
  apply drain_turn_pending in E.
  destruct (IH p') as [[p'' later] ->]; [lia|]. eauto.
Qed.

Lemma drain_loop_more turns turns' p r :
  drain_loop turns p = Some r -> turns <= turns' -> drain_loop turns' p = Some r.
Proof.
  revert turns' p r; induction turns as [|turns IH]; intros turns' p r; [discriminate|].
  intros H Hle. destruct turns' as [|turns']; [lia|].
  simpl in H |- *. destruct (drain_turn p) as [p'|p' emitted]; [exact H|].
  destruct (drain_loop turns p') as [[p'' later]|] eqn:E; [|discriminate].
  rewrite (IH turns' p' _ E) by lia. exact H.
Qed.

(** [drain] is the loop: the bound in its definition is never hit. *)
Lemma drain_loop_drain p :
  drain_loop (S (pending p)) p = Some (drain p).
Proof.
  unfold drain.
  destruct (drain_loop_returns (S (pending p)) p) as [r ->]; auto.
Qed.

Lemma drain_unfold p :
  drain p =
  match drain_turn p with
  | Return p' => (p', [])
  | Continue p' emitted =>
      let (p'', later) := drain p' in (p'', emitted ++ later)
  end.
Proof.
  pose proof (drain_loop_drain p) as H. simpl in H.
  destruct (drain_turn p) as [p'|p' emitted] eqn:E.
  - now injection H as <-.
  - apply drain_turn_pending in E.
    pose proof (drain_loop_drain p') as H'.
    rewrite (drain_loop_more _ (pending p) _ _ H') in H by lia.
    destruct (drain p') as [p'' later]. now injection H as <-.
Qed.

Lemma parser_induction (P : MessageParser -> Prop) :
  (forall p, (forall p', pending p' < pending p -> P p') -> P p) ->
  forall p, P p.
Proof.
  intros step p.
  assert (H : forall n p, pending p < n -> P p).
  { induction n as [|n IH]; intros q Hq; [lia|].
    apply step. intros q' Hq'. apply IH. lia. }
  apply (H (S (pending p))). lia.
Qed.

(* ================================================================ *)
(** ** The parser and its input, chunk by chunk *)

Lemma drain_turn_ok p :
  parser_ok p ->
  match drain_turn p with
  | Return p' | Continue p' _ => parser_ok p'
  end.
Proof.
  unfold parser_ok, drain_turn. destruct p as [buf [len|]]; simpl.
  - intros Hlen. unfold drain_body. destruct (number_lt _ len); simpl; auto.
  - intros _. destruct (indexOf CRLFCRLF buf); simpl; [|exact I].
    destruct (header_match _) as [ds|] eqn:E; simpl; [|exact I].
    apply header_match_is_length in E. unfold drain_body.
    destruct (number_lt _ _); simpl; auto.
Qed.

Lemma drain_ok p : parser_ok p -> parser_ok (fst (drain p)).
Proof.
  induction p as [p IH] using parser_induction. intros Hok.
  rewrite drain_unfold. pose proof (drain_turn_ok p Hok) as H.
  destruct (drain_turn p) as [p'|p' emitted] eqn:E; [exact H|].
  apply drain_turn_pending in E. specialize (IH p' E H).
  destruct (drain p'). exact IH.
Qed.

Lemma no_complete_frame_Return p :
  no_complete_frame p -> drain_turn p = Return p.
Proof.
  unfold no_complete_frame, drain_turn, drain_body.
  destruct p as [buf [len|]]; simpl; intros ->; reflexivity.
Qed.

Lemma drain_turn_Return p p' :
  drain_turn p = Return p' -> no_complete_frame p'.
Proof.
  unfold drain_turn, no_complete_frame.
  destruct (contentLength p) as [len|] eqn:Ec.
  - intros H. apply drain_body_Return in H as [-> H]. exact H.
  - destruct (indexOf CRLFCRLF (buffer p)) eqn:Ei.
    + destruct (header_match _); [|discriminate].
      intros H. apply drain_body_Return in H as [-> H]. exact H.
    + intros H. injection H as <-. now rewrite Ec.
Qed.

(** When [drain] returns, no complete frame is left. *)
Lemma drain_no_complete_frame p : no_complete_frame (fst (drain p)).
Proof.
  induction p as [p IH] using parser_induction.
  rewrite drain_unfold.
  destruct (drain_turn p) as [p'|p' emitted] eqn:E.
  - apply (drain_turn_Return _ _ E).
  - apply drain_turn_pending in E. specialize (IH p' E).
    destruct (drain p'). exact IH.
Qed.

Lemma drain_idle p : no_complete_frame p -> drain p = (p, []).
Proof.
  intros H. rewrite drain_unfold. now rewrite (no_complete_frame_Return _ H).
Qed.

Lemma append_nil p : append p [] = p.
Proof. destruct p. unfold append. simpl. now rewrite app_nil_r. Qed.

Lemma append_append p a b : append (append p a) b = append p (a ++ b).
Proof. unfold append. simpl. now rewrite app_assoc. Qed.

Lemma drain_body_append buf len chunk :
  is_length len ->
  match drain_body buf len with
  | Return p' => drain_body (buf ++ chunk) len = drain_turn (append p' chunk)
  | Continue p' emitted =>
      drain_body (buf ++ chunk) len = Continue (append p' chunk) emitted
  end.
Proof.
  intros Hlen. unfold drain_body at 1.
  destruct (number_lt (number_of_nat (length buf)) len) eqn:E; [reflexivity|].
  destruct (adjustOffset_fits _ _ Hlen E) as (k & Hk & _ & Hadj).
  unfold drain_body.
  rewrite (number_lt_longer (length buf) (length (buf ++ chunk)) _ Hlen) by
    (try exact E; rewrite length_app; lia).
  rewrite (Hadj (length buf)), (Hadj (length (buf ++ chunk))) by
    (rewrite ?length_app; lia).
  rewrite firstn_app_le, skipn_app_le by exact Hk. reflexivity.
Qed.

Lemma drain_turn_header buf chunk headerEnd :
  indexOf CRLFCRLF buf = Some headerEnd ->
  drain_turn {| buffer := buf ++ chunk; contentLength := None |} =
  match header_match (toString_ascii (firstn headerEnd buf)) with
  | Some digits =>
      drain_body (skipn (headerEnd + 4) buf ++ chunk) (parseInt digits)
  | None =>
      Continue {| buffer := skipn (headerEnd + 4) buf ++ chunk;
                  contentLength := None |} []
  end.
Proof.
  intros Ei. unfold drain_turn. simpl.
  rewrite (indexOf_app _ _ chunk _ Ei).
  apply indexOf_bound in Ei. simpl in Ei.
  rewrite firstn_app_le, skipn_app_le by lia. reflexivity.
Qed.

Lemma drain_turn_append_Return p p' chunk :
  parser_ok p -> drain_turn p = Return p' ->
  drain_turn (append p chunk) = drain_turn (append p' chunk).
Proof.
  destruct p as [buf [len|]]; unfold parser_ok, drain_turn at 1; simpl;
    intros Hok H.
  - pose proof (drain_body_append buf len chunk Hok) as Happ.
    rewrite H in Happ. exact Happ.
  - destruct (indexOf CRLFCRLF buf) as [headerEnd|] eqn:Ei;
      [|injection H as <-; reflexivity].
    unfold append at 1. simpl. rewrite (drain_turn_header _ chunk _ Ei).
    destruct (header_match _) as [ds|] eqn:E; [|discriminate].
    pose proof (drain_body_append (skipn (headerEnd + 4) buf) _ chunk
                  (header_match_is_length _ _ E)) as Happ.
    rewrite H in Happ. exact Happ.
Qed.

Lemma drain_turn_append_Continue p p' emitted chunk :
  parser_ok p -> drain_turn p = Continue p' emitted ->
  drain_turn (append p chunk) = Continue (append p' chunk) emitted.
Proof.
  destruct p as [buf [len|]]; unfold parser_ok, drain_turn at 1; simpl;
    intros Hok H.
  - pose proof (drain_body_append buf len chunk Hok) as Happ.
    rewrite H in Happ. exact Happ.
  - destruct (indexOf CRLFCRLF buf) as [headerEnd|] eqn:Ei; [|discriminate].
    unfold append at 1. simpl. rewrite (drain_turn_header _ chunk _ Ei).
    destruct (header_match _) as [ds|] eqn:E.
    + pose proof (drain_body_append (skipn (headerEnd + 4) buf) _ chunk
                  (header_match_is_length _ _ E)) as Happ.
      rewrite H in Happ. exact Happ.
    + injection H as <- <-. reflexivity.
Qed.

(** Draining, then appending a chunk and draining again, is draining with
    the chunk already appended. *)
Lemma drain_append chunk p :
  parser_ok p ->
  drain (append p chunk) =
  let (p1, first) := drain p in
  let (p2, second) := drain (append p1 chunk) in
  (p2, first ++ second).
Proof.
  induction p as [p IH] using parser_induction. intros Hok.
  rewrite (drain_unfold p), (drain_unfold (append p chunk)).
  pose proof (drain_turn_ok p Hok) as Hok'.
  destruct (drain_turn p) as [p'|p' emitted] eqn:E.
  - rewrite (drain_turn_append_Return _ _ chunk Hok E), <- drain_unfold.
    destruct (drain (append p' chunk)); reflexivity.
  - rewrite (drain_turn_append_Continue _ _ _ chunk Hok E).
    apply drain_turn_pending in E.
    rewrite (IH p' E Hok').
    destruct (drain p') as [p1 first].
    destruct (drain (append p1 chunk)) as [p2 second].
    now rewrite app_assoc.
Qed.

Lemma feed_all_concat chunks p :
  parser_ok p -> no_complete_frame p ->
  feed_all p chunks = feed p (concat chunks).
Proof.
  revert p; induction chunks as [|chunk chunks IH]; intros p Hok Hidle.
  - simpl. unfold feed. rewrite append_nil. symmetry. apply drain_idle, Hidle.
  - simpl. unfold feed at 2. rewrite <- append_append.
    rewrite (drain_append (concat chunks) (append p chunk)) by exact Hok.
    unfold feed at 1.
    pose proof (drain_ok (append p chunk) Hok) as Hok1.
    pose proof (drain_no_complete_frame (append p chunk)) as Hidle1.
    destruct (drain (append p chunk)) as [p1 first]. simpl in Hok1, Hidle1.
    rewrite (IH p1 Hok1 Hidle1). reflexivity.
Qed.

(** C1.  Chunk-boundary independence: however a byte sequence is cut into
    chunks, feeding the chunks one after the other to a new parser calls
    [onMessage] with the same messages in the same order, and leaves the
    parser in the same state, as feeding the whole sequence as one chunk.
    It holds for every byte sequence, so for every sequence of valid
    frames. *)
Theorem chunk_boundary_independence (chunks : list bytes) :
  feed_all new_MessageParser chunks = feed new_MessageParser (concat chunks).
Proof.
  apply feed_all_concat; [exact I | reflexivity].
Qed.

(* ================================================================ *)
(** ** The diagnostic filter *)

Lemma jsstring_eqb_eq a b : jsstring_eqb a b = true <-> a = b.
Proof.
  revert b; induction a as [|x a IH]; intros [|y b]; simpl;
    try (split; [discriminate | congruence]); [tauto|].
  rewrite andb_true_iff, N.eqb_eq, IH.
  split; [intros [-> ->]; reflexivity | intros H; injection H; auto].
Qed.

Lemma jsstring_eqb_refl a : jsstring_eqb a a = true.
Proof. now apply jsstring_eqb_eq. Qed.

Lemma lookup_set_property k v props :
  lookup k (set_property k v props) = Some v.
Proof.
  induction props as [|[k' v'] props IH]; simpl.
  - now rewrite jsstring_eqb_refl.
  - destruct (jsstring_eqb k k') eqn:E; simpl.
    + now rewrite jsstring_eqb_refl.
    + now rewrite E.
Qed.

Lemma lookup_set_property_other k k' v props :
  jsstring_eqb k' k = false ->
  lookup k' (set_property k v props) = lookup k' props.
Proof.
  intros Hk. induction props as [|[k0 v0] props IH]; simpl.
  - now rewrite Hk.
  - destruct (jsstring_eqb k k0) eqn:E; simpl.
    + apply jsstring_eqb_eq in E as <-. now rewrite Hk.
    + now rewrite IH.
Qed.

Lemma number_le_Finite a b :
  number_le (Finite a) (Finite b) = true <-> (a <= b)%Q.
Proof.
  simpl. unfold Qlt_bool. rewrite negb_involutive. apply Qle_bool_iff.
Qed.

Lemma is_publish_object msg :
  is_publish msg = true -> exists props, msg = JObject props.
Proof. destruct msg; try discriminate. eauto. Qed.

(** On the diagnostics of the declared shape the callback of [filter] is the
    comparison of the specification. *)
Lemma keep_diagnostic_typed cfg d :
  is_Diagnostic d ->
  keep_diagnostic cfg d = Normal (number_le (severity_of d) (minSeverity cfg)).
Proof.
  destruct d as [| | | | |props]; try contradiction.
  unfold is_Diagnostic, keep_diagnostic, severity_of. simpl.
  destruct (lookup (js "severity") props) as [[]|]; try contradiction; reflexivity.
Qed.

Lemma Array_filter_typed cfg ds :
  Forall is_Diagnostic ds ->
  Array_filter (keep_diagnostic cfg) ds = Normal (retained (minSeverity cfg) ds).
Proof.
  induction 1 as [|d ds Hd _ IH]; [reflexivity|].
  simpl. rewrite (keep_diagnostic_typed cfg d Hd), IH. simpl.
  destruct (number_le _ _); reflexivity.
Qed.

Lemma retained_typed T ds :
  Forall is_Diagnostic ds -> Forall is_Diagnostic (retained T ds).
Proof.
  intros H. apply Forall_forall. intros d Hd.
  apply filter_In in Hd as [Hd _]. revert d Hd. now apply Forall_forall.
Qed.

(** The severity path on a payload of the declared shape. *)
Lemma filterDiagnostics_typed cfg msg uri ds :
  dropAll cfg = false -> publishes msg uri ds ->
  exists props pprops,
    msg = JObject props /\
    lookup (js "params") props = Some (JObject pprops) /\
    filterDiagnostics cfg msg =
    Normal (Some (JObject
      (set_property (js "params")
         (JObject (set_property (js "diagnostics")
                     (JArray (retained (minSeverity cfg) ds)) pprops))
         props))).
Proof.
  intros Hdrop (Hm & Hu & Hd & Hall).
  destruct (is_publish_object _ Hm) as [props ->].
  unfold is_publish, method_of, uri_of, diagnostics_of, params_of in *.
  simpl in *.
  destruct (lookup (js "params") props) as [[| | | | |pprops]|] eqn:Ep;
    try discriminate.
  exists props, pprops. split; [reflexivity|]. split; [exact Ep|].
  simpl in Hd, Hu. unfold filterDiagnostics. simpl. rewrite Hm, Hdrop. simpl. rewrite Ep. simpl.
  destruct (lookup (js "diagnostics") pprops) as [[| | | |ds'|]|];
    try discriminate.
  injection Hd as ->. rewrite (Array_filter_typed cfg ds Hall). simpl.
  rewrite Hu. reflexivity.
Qed.

Lemma publishes_filtered msg uri ds props pprops kept :
  publishes msg uri ds ->
  msg = JObject props ->
  lookup (js "params") props = Some (JObject pprops) ->
  Forall is_Diagnostic kept ->
  publishes
    (JObject (set_property (js "params")
                (JObject (set_property (js "diagnostics") (JArray kept) pprops))
                props))
    uri kept.
Proof.
  intros (Hm & Hu & Hd & Hall) -> Ep Hkept.
  unfold publishes, is_publish, method_of, uri_of, diagnostics_of, params_of in *.
  simpl in *. rewrite Ep in Hu. simpl in Hu.
  rewrite lookup_set_property. simpl.
  rewrite lookup_set_property, !lookup_set_property_other by reflexivity.
  auto.
Qed.

(** C5.  Identity on the other methods: a message whose method is not
    [textDocument/publishDiagnostics] comes back as it is, whatever the
    configuration.  It holds for every JSON value but [null] (reading
    [msg.method] of [null] throws), so for every message, which is an
    object. *)
Theorem filterDiagnostics_identity (cfg : Config) (msg : json) :
  msg <> JNull -> is_publish msg = false ->
  filterDiagnostics cfg msg = Normal (Some msg).
Proof.
  intros Hnull Hm. unfold filterDiagnostics.
  destruct msg; try contradiction; try reflexivity.
  unfold is_publish, method_of in Hm. simpl in Hm |- *.
  now rewrite Hm.
Qed.

(** With drop-all the filter reads nothing but [params.uri], for the log. *)
Lemma filterDiagnostics_dropAll cfg msg :
  dropAll cfg = true -> is_publish msg = true ->
  filterDiagnostics cfg msg = (_ <- ToStringV (uri_of msg);; Normal None).
Proof.
  intros Hdrop Hm. destruct (is_publish_object _ Hm) as [props ->].
  unfold is_publish, method_of, uri_of, params_of in *. simpl in *.
  unfold filterDiagnostics. simpl. rewrite Hm, Hdrop. simpl.
  destruct (lookup (js "params") props) as [[]|]; simpl;
    try reflexivity;
    match goal with |- context [ToStringV ?u] => destruct (ToStringV u) end;
    reflexivity.
Qed.

(** Whatever the [uri]: with drop-all nothing is written for a
    publish-diagnostics message (what the filter throws is caught). *)
Lemma dropAll_writes_nothing cfg msg :
  dropAll cfg = true -> is_publish msg = true -> written cfg msg = [].
Proof.
  intros Hdrop Hm. unfold written, forward.
  rewrite filterDiagnostics_dropAll by assumption.
  destruct (ToStringV (uri_of msg)); reflexivity.
Qed.


Lemma uri_text_string msg uri :
  uri_of msg = Some (JString uri) -> ToStringV (uri_of msg) = Normal uri.
Proof. now intros ->. Qed.

Lemma uri_text_missing msg :
  uri_of msg = None -> ToStringV (uri_of msg) = Normal (js "undefined").
Proof. now intros ->. Qed.

(** C3.  Severity threshold: with [dropAll] off and threshold
    [T = minSeverity], the filter gives back the message with the same
    target and with exactly the diagnostics of severity [<= T], a missing
    severity counting as 1, in their original order ([retained] is
    [List.filter] with that test). *)
Theorem severity_threshold (cfg : Config) (msg : json) (uri : jsstring)
  (ds : list json) :
  dropAll cfg = false -> publishes msg uri ds ->
  exists out,
    filterDiagnostics cfg msg = Normal (Some out) /\
    publishes out uri (retained (minSeverity cfg) ds).
Proof.
  intros Hdrop Hp.
  destruct (filterDiagnostics_typed cfg msg uri ds Hdrop Hp)
    as (props & pprops & Hmsg & Hparams & Hout).
  eexists. split; [exact Hout|].
  apply (publishes_filtered msg uri ds); auto.
  apply retained_typed. apply Hp.
Qed.

Lemma filterDiagnostics_never_null cfg msg :
  dropAll cfg = false -> filterDiagnostics cfg msg <> Normal None.
Proof.
  intros Hdrop. unfold filterDiagnostics.
  destruct (Get msg (js "method")) as [method|]; simpl; [|discriminate].
  destruct (negb (is_publishDiagnostics method)); [discriminate|].
  rewrite Hdrop.
  destruct (Get msg (js "params")) as [params|]; simpl; [|discriminate].
  destruct (GetV params (js "diagnostics")) as [[[| | | |ds|]|]|]; simpl;
    try discriminate.
  destruct (Array_filter (keep_diagnostic cfg) ds); simpl; [|discriminate].
  destruct (GetV params (js "uri")) as [uri|]; simpl; [|discriminate].
  destruct (ToStringV uri); simpl; discriminate.
Qed.

(** C4.  Empty result: with [dropAll] off the filter never returns [null];
    when the threshold removes every diagnostic of a publish-diagnostics
    message, it returns the message with the same target and an empty
    diagnostics array, and that message is written to the client. *)
Theorem empty_result_forwarded (cfg : Config) (msg : json) :
  dropAll cfg = false ->
  filterDiagnostics cfg msg <> Normal None /\
  forall uri ds,
    publishes msg uri ds -> retained (minSeverity cfg) ds = [] ->
    exists out,
      filterDiagnostics cfg msg = Normal (Some out) /\
      publishes out uri [] /\
      written cfg msg = encodeMessage out.
Proof.
  intros Hdrop. split; [now apply filterDiagnostics_never_null|].
  intros uri ds Hp Hempty.
  destruct (filterDiagnostics_typed cfg msg uri ds Hdrop Hp)
    as (props & pprops & Hmsg & Hparams & Hout).
  rewrite Hempty in Hout.
  eexists. split; [exact Hout|]. split.
  - apply (publishes_filtered msg uri ds); auto.
  - unfold written, forward. rewrite Hout. reflexivity.
Qed.

(** C10.  The unstated precondition: with [dropAll] off, a
    publish-diagnostics message whose [params] is missing or has no array
    under [diagnostics] makes [filterDiagnostics] throw; it returns (a
    message or [null]) only for a message that carries a diagnostics
    array. *)
Theorem filterDiagnostics_needs_array (cfg : Config) (msg : json) :
  dropAll cfg = false -> is_publish msg = true ->
  (diagnostics_of msg = None -> filterDiagnostics cfg msg = Throw TypeError) /\
  (forall r, filterDiagnostics cfg msg = Normal r ->
             exists ds, diagnostics_of msg = Some ds).
Proof.
  intros Hdrop Hm. destruct (is_publish_object _ Hm) as [props ->].
  unfold is_publish, method_of, diagnostics_of, params_of in *. simpl in *.
  unfold filterDiagnostics. simpl. rewrite Hm, Hdrop. simpl.
  destruct (lookup (js "params") props) as [[| | | | |pprops]|]; simpl;
    try (split; [reflexivity | discriminate]).
  destruct (lookup (js "diagnostics") pprops) as [[| | | |ds|]|]; simpl;
    try (split; [reflexivity | discriminate]).
  split; [discriminate | eauto].
Qed.

(* ================================================================ *)
(** ** Frames *)

Lemma adjustOffset_nat k m : adjustOffset (number_of_nat k) m = Nat.min k m.
Proof.
  unfold adjustOffset, number_of_nat, number_of_Z. rewrite Qtrunc_inject_Z.
  destruct (Z.of_nat k <? 0)%Z eqn:E; [apply Z.ltb_lt in E; lia|].
  now rewrite Nat2Z.id.
Qed.

(** A body that is in the buffer is taken out whole. *)
Lemma drain_body_whole body rest :
  drain_body (body ++ rest) (number_of_nat (length body)) =
  Continue {| buffer := rest; contentLength := None |}
           (match JSON_parse (toString_utf8 body) with
            | Some msg => [msg]
            | None => []
            end).
Proof.
  unfold drain_body.
  rewrite (number_lt_nat_Z _ (Z.of_nat (length body)) : number_lt _ (number_of_nat _) = _).
  destruct (Z.of_nat (length (body ++ rest)) <? Z.of_nat (length body))%Z eqn:E.
  - apply Z.ltb_lt in E. rewrite length_app in E. lia.
  - rewrite adjustOffset_nat, Nat.min_l by (rewrite length_app; lia).
    rewrite firstn_app_le, skipn_app_le by lia.
    now rewrite firstn_all, skipn_all.
Qed.

Lemma drain_turn_block header rest :
  indexOf CRLFCRLF (header ++ CRLFCRLF) = Some (length header) ->
  drain_turn {| buffer := header ++ CRLFCRLF ++ rest; contentLength := None |} =
  match header_match (toString_ascii header) with
  | Some digits => drain_body rest (parseInt digits)
  | None => Continue {| buffer := rest; contentLength := None |} []
  end.
Proof.
  intros Hi. rewrite app_assoc, (drain_turn_header _ rest _ Hi).
  rewrite firstn_app_le, firstn_all by lia.
  replace (length header + 4) with (length (header ++ CRLFCRLF))
    by (rewrite length_app; reflexivity).
  now rewrite skipn_all.
Qed.

(** One turn on a framed body: the body is decoded and the parser awaits
    the next header. *)
Lemma drain_turn_framed header body rest :
  announces header (length body) ->
  drain_turn {| buffer := header ++ CRLFCRLF ++ body ++ rest;
                contentLength := None |} =
  Continue {| buffer := rest; contentLength := None |}
           (segment_messages (Framed header body)).
Proof.
  intros (Hi & digits & Hm & Hn).
  rewrite (drain_turn_block _ _ Hi), Hm, Hn. apply drain_body_whole.
Qed.

(** One turn on a header block without a length: the buffer is cut after
    the separator and the parser awaits a header again. *)
Lemma drain_turn_unparsable header rest :
  unparsable header ->
  drain_turn {| buffer := header ++ CRLFCRLF ++ rest; contentLength := None |} =
  Continue {| buffer := rest; contentLength := None |} [].
Proof.
  intros (Hi & Hm). now rewrite (drain_turn_block _ _ Hi), Hm.
Qed.

Lemma drain_segments segs rest :
  Forall segment_ok segs ->
  drain {| buffer := concat (map segment_bytes segs) ++ rest;
           contentLength := None |} =
  let (p, later) := drain {| buffer := rest; contentLength := None |} in
  (p, flat_map segment_messages segs ++ later).
Proof.
  induction 1 as [|seg segs Hseg _ IH]; cbn [concat map flat_map].
  - destruct (drain _); reflexivity.
  - rewrite drain_unfold.
    destruct seg as [header body|header]; cbn [segment_bytes segment_ok] in *.
    + rewrite <- !app_assoc.
      rewrite (drain_turn_framed header body _ Hseg).
      rewrite IH.
      destruct (drain {| buffer := rest; contentLength := None |}) as [p later].
      now rewrite app_assoc.
    + rewrite <- !app_assoc.
      rewrite (drain_turn_unparsable header _ Hseg).
      rewrite IH.
      destruct (drain {| buffer := rest; contentLength := None |}) as [p later].
      reflexivity.
Qed.

Lemma feed_new chunk :
  feed new_MessageParser chunk =
  drain {| buffer := chunk; contentLength := None |}.
Proof. reflexivity. Qed.

(** C7 as amended.  In a stream of segments, each a framed body or a header
    block in which no length is found, a header block without a length is
    dropped up to its separator and the parser awaits a header again; a
    body that [JSON.parse] rejects is dropped without a call of
    [onMessage]; every frame that starts where the parser resumes, before
    or after, has its message emitted in stream order
    ([segment_messages]), and the parser goes on with the bytes [rest] that
    follow as a new parser would. *)
Theorem corruption_contained (segs : list segment) (rest : bytes) :
  Forall segment_ok segs ->
  feed new_MessageParser (concat (map segment_bytes segs) ++ rest) =
  let (p, later) := feed new_MessageParser rest in
  (p, flat_map segment_messages segs ++ later).
Proof.
  intros H. rewrite !feed_new. now apply drain_segments.
Qed.

Definition segment_of_frame (f : frame) : segment :=
  Framed (frame_header f) (frame_body f).

Lemma frames_as_segments frames :
  Forall valid_frame frames ->
  Forall segment_ok (map segment_of_frame frames) /\
  concat (map segment_bytes (map segment_of_frame frames)) =
    concat (map frame_bytes frames) /\
  flat_map segment_messages (map segment_of_frame frames) =
    map frame_message frames.
Proof.
  induction 1 as [|f frames [Ha Hj] _ (IH1 & IH2 & IH3)];
    cbn [concat map flat_map]; [repeat split; constructor|].
  repeat split.
  - constructor; assumption.
  - now rewrite IH2.
  - cbn [segment_of_frame segment_messages]. now rewrite Hj, IH3.
Qed.

(** C6.  Multi-frame draining: one [feed] of a chunk made of any number of
    valid frames calls [onMessage] with the message of every frame, in
    arrival order, and returns with an empty buffer; and whatever the
    parser and the chunk, no complete frame is left in the buffer when
    [feed] returns. *)
Theorem multi_frame_draining (frames : list frame) (p : MessageParser)
  (chunk : bytes) :
  Forall valid_frame frames ->
  feed new_MessageParser (concat (map frame_bytes frames)) =
    (new_MessageParser, map frame_message frames) /\
  no_complete_frame (fst (feed p chunk)).
Proof.
  intros H. split; [|apply drain_no_complete_frame].
  destruct (frames_as_segments frames H) as (Hok & Hbytes & Hmsgs).
  rewrite feed_new, <- Hbytes, <- (app_nil_r (concat _)).
  rewrite (drain_segments _ [] Hok), Hmsgs.
  rewrite drain_idle by reflexivity. now rewrite app_nil_r.
Qed.

(* ================================================================ *)
(** ** The frame encoder *)

Lemma to_N_byte_of_N n : Byte.to_N (byte_of_N n) = (n mod 256)%N.
Proof.
  unfold byte_of_N. destruct (Byte.of_N (n mod 256)) as [b|] eqn:E.
  - now apply Byte.to_of_N.
  - apply Byte.of_N_None_iff in E.
    pose proof (N.mod_lt n 256 ltac:(discriminate)). lia.
Qed.

Lemma ascii_round_trip c :
  (c < 128)%N -> N.land (Byte.to_N (byte_of_N c)) 127 = c.
Proof.
  intros H. rewrite to_N_byte_of_N, N.mod_small by lia.
  change 127%N with (N.ones 7). rewrite N.land_ones.
  apply N.mod_small. exact H.
Qed.

Lemma toString_ascii_Buffer_from_ascii s :
  Forall (fun c => (c < 128)%N) s ->
  toString_ascii (Buffer_from_ascii s) = s.
Proof.
  unfold toString_ascii, Buffer_from_ascii.
  induction 1 as [|c s Hc _ IH]; simpl; [reflexivity|].
  now rewrite IH, ascii_round_trip.
Qed.

Lemma byte_of_N_not_CR c :
  (c < 128)%N -> c <> 13%N -> byte_of_N c <> x0d.
Proof.
  intros Hc Hne E. apply (f_equal Byte.to_N) in E.
  rewrite to_N_byte_of_N, N.mod_small in E by lia. apply Hne, E.
Qed.

(** A separator that follows bytes without a carriage return is the first
    one. *)
Lemma indexOf_separator header rest :
  Forall (fun b => b <> x0d) header ->
  indexOf CRLFCRLF (header ++ CRLFCRLF ++ rest) = Some (length header).
Proof.
  induction 1 as [|b header Hb _ IH].
  - cbn [app length]. destruct (CRLFCRLF ++ rest) eqn:E; [discriminate|].
    cbn [indexOf]. rewrite <- E. now rewrite starts_with_self.
  - cbn [app length indexOf]. rewrite IH.
    replace (starts_with CRLFCRLF (b :: header ++ CRLFCRLF ++ rest)) with false;
      [reflexivity|].
    cbn [starts_with CRLFCRLF].
    destruct (Byte.eqb x0d b) eqn:E; [|reflexivity].
    apply Byte.byte_dec_bl in E. now subst b.
Qed.

Lemma digits_are_ascii digits :
  Forall (fun c => is_digit c = true) digits ->
  Forall (fun c => (c < 128)%N /\ c <> 13%N) digits.
Proof.
  apply Forall_impl. intros c H. apply is_digit_range in H. lia.
Qed.

Lemma header_is_ascii digits :
  Forall (fun c => is_digit c = true) digits ->
  Forall (fun c => (c < 128)%N /\ c <> 13%N) (CONTENT_LENGTH_HEADER ++ digits).
Proof.
  intros H. apply Forall_app. split; [|now apply digits_are_ascii].
  repeat constructor; discriminate.
Qed.

(** The parser reads the digits back from the header line of the encoder. *)
Lemma header_match_encoded digits :
  digits <> [] -> Forall (fun c => is_digit c = true) digits ->
  header_match (CONTENT_LENGTH_HEADER ++ digits) = Some digits.
Proof.
  intros Hne Hall.
  assert (Hhere : match_here (CONTENT_LENGTH_HEADER ++ digits) = Some digits).
  { unfold match_here.
    replace (match_literal_ci (js "Content-Length:")
               (CONTENT_LENGTH_HEADER ++ digits))
      with (Some (32%N :: digits)) by reflexivity.
    destruct digits as [|d digits]; [contradiction|].
    cbn [dropWhile]. change (is_whitespace 32) with true. cbv iota.
    cbn [dropWhile].
    rewrite (digit_not_whitespace d (Forall_inv Hall)).
    now rewrite (takeWhile_all _ _ Hall). }
  change (CONTENT_LENGTH_HEADER ++ digits)
    with (67%N :: (skipn 1 CONTENT_LENGTH_HEADER ++ digits)) in *.
  cbn [header_match]. now rewrite Hhere.
Qed.

Lemma decimal_digits_value fuel n acc :
  (n < 10 ^ N.of_nat fuel)%N ->
  fold_left (fun a d => (10 * a + (Z.of_N d - 48))%Z)
            (decimal_digits fuel n acc) 0%Z =
  fold_left (fun a d => (10 * a + (Z.of_N d - 48))%Z) acc (Z.of_N n).
Proof.
  revert n acc; induction fuel as [|fuel IH]; intros n acc Hn.
  - cbn [decimal_digits]. change (10 ^ N.of_nat 0)%N with 1%N in Hn.
    replace n with 0%N by lia. reflexivity.
  - cbn [decimal_digits]. destruct (n <? 10)%N eqn:E.
    + apply N.ltb_lt in E. cbn [fold_left].
      rewrite N.mod_small by exact E. f_equal. lia.
    + apply N.ltb_ge in E. rewrite IH.
      * cbn [fold_left]. f_equal.
        pose proof (N.div_mod n 10 ltac:(discriminate)). lia.
      * rewrite Nat2N.inj_succ, N.pow_succ_r' in Hn.
        apply N.Div0.div_lt_upper_bound. exact Hn.
Qed.

Lemma decimal_digits_digits fuel n acc :
  Forall (fun c => is_digit c = true) acc ->
  Forall (fun c => is_digit c = true) (decimal_digits fuel n acc).
Proof.
  revert n acc; induction fuel as [|fuel IH]; intros n acc Hacc;
    cbn [decimal_digits]; [exact Hacc|].
  assert (Hd : is_digit (48 + n mod 10) = true).
  { apply is_digit_range.
    pose proof (N.mod_lt n 10 ltac:(discriminate)) as Hr.
    revert Hr. generalize (n mod 10)%N. intros r Hr. lia. }
  destruct (n <? 10)%N; [|apply IH]; constructor; assumption.
Qed.

Lemma decimal_digits_nonempty fuel n acc :
  decimal_digits (S fuel) n acc <> [].
Proof.
  revert n acc; induction fuel as [|fuel IH]; intros n acc;
    cbn [decimal_digits].
  - destruct (n <? 10)%N; discriminate.
  - destruct (n <? 10)%N; [discriminate|apply IH].
Qed.

Lemma N_lt_pow10 n : (N.of_nat n < 10 ^ N.of_nat (S n))%N.
Proof.
  induction n as [|n IH]; [reflexivity|].
  rewrite (Nat2N.inj_succ (S n)), N.pow_succ_r'. rewrite Nat2N.inj_succ. lia.
Qed.

(** The digits written for a length are the decimal notation of the
    length. *)
Lemma length_toString_spec n :
  length_toString n <> [] /\
  Forall (fun c => is_digit c = true) (length_toString n) /\
  digits_value (length_toString n) = Z.of_nat n.
Proof.
  unfold length_toString. split; [apply decimal_digits_nonempty|]. split.
  - apply decimal_digits_digits. constructor.
  - unfold digits_value. rewrite decimal_digits_value by apply N_lt_pow10.
    cbn [fold_left]. apply nat_N_Z.
Qed.

Lemma encodeMessage_frame msg :
  encodeMessage msg =
  Buffer_from_ascii
    (CONTENT_LENGTH_HEADER
       ++ length_toString (length (Buffer_from_utf8 (JSON_stringify msg))))
  ++ CRLFCRLF ++ Buffer_from_utf8 (JSON_stringify msg).
Proof.
  unfold encodeMessage, Buffer_from_ascii.
  rewrite !map_app, <- !app_assoc. reflexivity.
Qed.

Lemma header_without_CR digits :
  Forall (fun c => is_digit c = true) digits ->
  Forall (fun b => b <> x0d) (Buffer_from_ascii (CONTENT_LENGTH_HEADER ++ digits)).
Proof.
  intros H. apply header_is_ascii in H. unfold Buffer_from_ascii.
  apply Forall_map. revert H. apply Forall_impl.
  intros c [Hc Hne]. now apply byte_of_N_not_CR.
Qed.

(** C9.  The declared length: the frame [encodeMessage] makes is the header
    line [Content-Length: ] with decimal digits, the blank-line terminator
    (the first one of the frame), and the UTF-8 bytes of the serialized
    message; the digits are the number of those bytes, that is of encoded
    bytes and not of the characters of the text. *)
Theorem encodeMessage_declares_byte_length (msg : json) :
  exists digits,
    encodeMessage msg =
      Buffer_from_ascii (CONTENT_LENGTH_HEADER ++ digits)
      ++ CRLFCRLF ++ Buffer_from_utf8 (JSON_stringify msg) /\
    indexOf CRLFCRLF (encodeMessage msg) =
      Some (length (CONTENT_LENGTH_HEADER ++ digits)) /\
    digits <> [] /\
    Forall (fun c => is_digit c = true) digits /\
    digits_value digits =
      Z.of_nat (length (Buffer_from_utf8 (JSON_stringify msg))).
Proof.
  pose proof (length_toString_spec
                (length (Buffer_from_utf8 (JSON_stringify msg))))
    as (Hne & Hall & Hval).
  eexists. split; [apply encodeMessage_frame|].
  split; [|auto].
  rewrite encodeMessage_frame, indexOf_separator by now apply header_without_CR.
  unfold Buffer_from_ascii. now rewrite length_map.
Qed.

(** Below 2^53 bytes, the limit of a buffer, the parser reads that length
    back from the header line. *)
Lemma encoded_header_announces n :
  (Z.of_nat n < 2 ^ 53)%Z ->
  announces (Buffer_from_ascii (CONTENT_LENGTH_HEADER ++ length_toString n)) n.
Proof.
  intros Hn. destruct (length_toString_spec n) as (Hne & Hall & Hval).
  split.
  - rewrite <- (app_nil_r CRLFCRLF). now apply indexOf_separator, header_without_CR.
  - exists (length_toString n). split.
    + rewrite toString_ascii_Buffer_from_ascii.
      * now apply header_match_encoded.
      * apply header_is_ascii in Hall. revert Hall. apply Forall_impl. tauto.
    + rewrite parseInt_digits, Hval by assumption.
      now apply round_to_double_small.
Qed.

(** What [encodeMessage] writes is a valid frame for a parser whose host
    reads the JSON text back. *)
Lemma encodeMessage_valid_frame msg parsed :
  let body := Buffer_from_utf8 (JSON_stringify msg) in
  (Z.of_nat (length body) < 2 ^ 53)%Z ->
  JSON_parse (toString_utf8 body) = Some parsed ->
  exists f,
    frame_bytes f = encodeMessage msg /\ frame_message f = parsed /\
    valid_frame f.
Proof.
  intros body Hlen Hparse.
  exists {| frame_header :=
              Buffer_from_ascii
                (CONTENT_LENGTH_HEADER ++ length_toString (length body));
            frame_body := body;
            frame_message := parsed |}.
  split; [symmetry; apply encodeMessage_frame|]. split; [reflexivity|].
  split; [now apply encoded_header_announces | exact Hparse].
Qed.

(* ================================================================ *)
(** ** Configuration *)

(** C8 as amended.  The threshold is [parseInt] of the value of
    [STAY_FRESH_MIN_SEVERITY], whatever integer that is, and 1 when the
    variable is not set or is empty ([||] takes the default for both); a
    value without a leading integer gives [NaN].  The filter compares the
    severity of a diagnostic with that number as it is. *)
Theorem minSeverity_resolution (env : environment) :
  let threshold :=
    match env (js "STAY_FRESH_MIN_SEVERITY") with
    | None | Some [] => number_of_Z 1
    | Some value => parseInt value
    end in
  minSeverity (config env) = threshold /\
  forall d, is_Diagnostic d ->
    keep_diagnostic (config env) d = Normal (number_le (severity_of d) threshold).
Proof.
  assert (H : minSeverity (config env) =
              match env (js "STAY_FRESH_MIN_SEVERITY") with
              | None | Some [] => number_of_Z 1
              | Some value => parseInt value
              end).
  { unfold config. cbn [minSeverity].
    destruct (env (js "STAY_FRESH_MIN_SEVERITY")) as [[|c value]|]; reflexivity. }
  cbv zeta. split; [exact H|].
  intros d Hd. rewrite <- H. now apply keep_diagnostic_typed.
Qed.

(* ================================================================ *)
(** ** More on the parser *)

Lemma number_lt_shorter a b len :
  a <= b ->
  number_lt (number_of_nat b) len = true ->
  number_lt (number_of_nat a) len = true.
Proof.
  intros Hab. destruct len as [|negative|q]; simpl; auto.
  unfold Qlt_bool. rewrite !negb_true_iff. intros Hb.
  destruct (Qle_bool q (inject_Z (Z.of_nat a))) eqn:Ha; [|reflexivity].
  apply Qle_bool_iff in Ha.
  assert (Hq : (q <= inject_Z (Z.of_nat b))%Q).
  { eapply Qle_trans; [exact Ha|]. rewrite <- Zle_Qle. lia. }
  apply Qle_bool_iff in Hq. congruence.
Qed.

(** X1 (parser).  While a body is awaited and the bytes received stay below
    the announced length, [feed] calls [onMessage] for nothing and keeps
    every byte: a length that is never reached blocks the stream (there is
    no timeout). *)
Theorem awaiting_body_buffers (p : MessageParser) (len : number)
  (chunks : list bytes) :
  contentLength p = Some len ->
  number_lt (number_of_nat (length (buffer p ++ concat chunks))) len = true ->
  feed_all p chunks =
  ({| buffer := buffer p ++ concat chunks; contentLength := Some len |}, []).
Proof.
  revert p; induction chunks as [|chunk chunks IH]; intros [buf cl] Hcl Hlt;
    simpl in Hcl; subst cl; cbn [feed_all concat buffer] in *.
  - now rewrite app_nil_r.
  - unfold feed. rewrite drain_idle.
    + rewrite (IH (append {| buffer := buf; contentLength := Some len |} chunk)
                  eq_refl).
      * unfold append. cbn [buffer contentLength]. now rewrite <- app_assoc.
      * unfold append. cbn [buffer]. now rewrite <- app_assoc.
    + unfold no_complete_frame, append. cbn [buffer contentLength].
      apply (number_lt_shorter _ _ _ (Nat.le_refl _)) in Hlt.
      eapply number_lt_shorter; [|exact Hlt].
      rewrite !length_app. lia.
Qed.

Lemma drain_turn_suffix p :
  match drain_turn p with
  | Return p' | Continue p' _ => exists consumed, buffer p = consumed ++ buffer p'
  end.
Proof.
  assert (Hbody : forall buf len,
             match drain_body buf len with
             | Return p' | Continue p' _ =>
                 exists consumed, buf = consumed ++ buffer p'
             end).
  { intros buf len. unfold drain_body. destruct (number_lt _ len).
    - exists []. reflexivity.
    - eexists. symmetry. apply firstn_skipn. }
  unfold drain_turn. destruct p as [buf [len|]]; cbn [buffer contentLength].
  - apply Hbody.
  - destruct (indexOf CRLFCRLF buf) as [headerEnd|]; [|exists []; reflexivity].
    destruct (header_match _) as [digits|].
    + specialize (Hbody (skipn (headerEnd + 4) buf) (parseInt digits)).
      destruct (drain_body _ _) as [p'|p' emitted];
        destruct Hbody as [consumed Hc];
        exists (firstn (headerEnd + 4) buf ++ consumed);
        rewrite <- app_assoc, <- Hc; symmetry; apply firstn_skipn.
    + eexists. symmetry. apply firstn_skipn.
Qed.

Lemma drain_suffix p :
  exists consumed, buffer p = consumed ++ buffer (fst (drain p)).
Proof.
  induction p as [p IH] using parser_induction.
  rewrite drain_unfold. pose proof (drain_turn_suffix p) as H.
  destruct (drain_turn p) as [p'|p' emitted] eqn:E; [exact H|].
  apply drain_turn_pending in E. destruct (IH p' E) as [consumed' H'].
  destruct H as [consumed H]. destruct (drain p') as [p'' later].
  cbn [fst] in *. exists (consumed ++ consumed').
  rewrite <- app_assoc, <- H'. exact H.
Qed.

(** X2 (parser).  The parser takes bytes from the front of its buffer only:
    what it holds after [feed] is the end of what it held followed by the
    chunk; no byte is reordered or rewritten. *)
Theorem feed_consumes_prefix (p : MessageParser) (chunk : bytes) :
  exists consumed,
    buffer p ++ chunk = consumed ++ buffer (fst (feed p chunk)).
Proof. apply (drain_suffix (append p chunk)). Qed.

(* ================================================================ *)
(** ** The server-to-client path *)

Lemma on_data_all_feed_all cfg chunks p :
  on_data_all cfg p chunks =
  let (p', emitted) := feed_all p chunks in
  (p', concat (map (written cfg) emitted)).
Proof.
  revert p; induction chunks as [|chunk chunks IH]; intros p;
    cbn [on_data_all feed_all]; [reflexivity|].
  unfold on_data. destruct (feed p chunk) as [p' emitted].
  rewrite IH. destruct (feed_all p' chunks) as [p'' later].
  now rewrite map_app, concat_app.
Qed.

(** X3 (proxy).  The bytes the client receives do not depend on how the
    server's output is cut into [data] events: handling the chunks one by
    one writes what handling their concatenation writes. *)
Theorem on_data_chunk_independence (cfg : Config) (chunks : list bytes) :
  on_data_all cfg new_MessageParser chunks =
  on_data cfg new_MessageParser (concat chunks).
Proof.
  rewrite on_data_all_feed_all, feed_all_concat by (exact I || reflexivity).
  reflexivity.
Qed.

Lemma json_is_null msg : msg = JNull \/ msg <> JNull.
Proof. destruct msg; auto; right; discriminate. Qed.

(** The filter on a value that is no publish-diagnostics notification. *)
Lemma filterDiagnostics_value cfg msg :
  msg <> JNull -> is_publish msg = false ->
  filterDiagnostics cfg msg = Normal (Some msg).
Proof.
  intros Hnull Hm. unfold filterDiagnostics.
  destruct msg; try contradiction; try reflexivity.
  unfold is_publish, method_of in Hm. simpl in Hm |- *. now rewrite Hm.
Qed.

(** X4 (proxy).  A message of another method is written re-encoded when it
    is truthy and not at all when it is not: the JSON values [0], [false],
    the empty string and [null] are parsed but never forwarded. *)
Theorem written_other_method (cfg : Config) (msg : json) :
  is_publish msg = false ->
  written cfg msg = if truthy msg then encodeMessage msg else [].
Proof.
  intros Hm. unfold written, forward.
  destruct (json_is_null msg) as [-> | Hnull]; [reflexivity|].
  rewrite (filterDiagnostics_value cfg msg Hnull Hm). cbn [bind].
  destruct (truthy msg); reflexivity.
Qed.

Lemma written_is_frame cfg msg :
  written cfg msg = [] \/ exists v, written cfg msg = encodeMessage v.
Proof.
  unfold written, forward.
  destruct (filterDiagnostics cfg msg) as [[m|]|]; simpl; auto.
  destruct (truthy m); eauto.
Qed.

(** X5 (proxy).  Whatever the server sends, what is written to the client
    is a sequence of frames made by [encodeMessage]: no raw or partial
    bytes of the server's output get through. *)
Theorem on_data_writes_frames (cfg : Config) (p : MessageParser)
  (chunk : bytes) :
  exists msgs, snd (on_data cfg p chunk) = concat (map encodeMessage msgs).
Proof.
  unfold on_data. destruct (feed p chunk) as [p' emitted]. cbn [snd].
  induction emitted as [|m emitted [msgs IH]]; [exists []; reflexivity|].
  cbn [map concat]. rewrite IH.
  destruct (written_is_frame cfg m) as [-> | [v ->]].
  - exists msgs. reflexivity.
  - exists (v :: msgs). reflexivity.
Qed.

(* ================================================================ *)
(** ** More on the diagnostic filter *)

Lemma set_property_twice k v v' props :
  set_property k v (set_property k v' props) = set_property k v props.
Proof.
  induction props as [|[k0 v0] props IH]; cbn [set_property].
  - now rewrite jsstring_eqb_refl.
  - destruct (jsstring_eqb k k0) eqn:E; cbn [set_property].
    + now rewrite jsstring_eqb_refl.
    + now rewrite E, IH.
Qed.

Lemma set_property_same k v props :
  lookup k props = Some v -> set_property k v props = props.
Proof.
  induction props as [|[k0 v0] props IH]; cbn [lookup set_property];
    [discriminate|].
  destruct (jsstring_eqb k k0) eqn:E.
  - intros H. injection H as ->. apply jsstring_eqb_eq in E as ->. reflexivity.
  - intros H. now rewrite IH.
Qed.

Lemma set_property_keys k v v' props :
  lookup k props = Some v' ->
  map fst (set_property k v props) = map fst props.
Proof.
  induction props as [|[k0 v0] props IH]; cbn [lookup set_property];
    [discriminate|].
  destruct (jsstring_eqb k k0) eqn:E.
  - intros _. apply jsstring_eqb_eq in E as ->. reflexivity.
  - intros H. cbn [map fst]. now rewrite IH.
Qed.

Lemma Array_filter_kept f ds kept :
  Array_filter f ds = Normal kept ->
  subsequence kept ds /\ Forall (fun d => f d = Normal true) kept.
Proof.
  revert kept; induction ds as [|d ds IH]; intros kept; cbn [Array_filter].
  - intros H. injection H as <-. split; constructor.
  - destruct (f d) as [b|] eqn:Ef; cbn [bind]; [|discriminate].
    destruct (Array_filter f ds) as [r|]; cbn [bind]; [|discriminate].
    destruct (IH r eq_refl) as [Hs Hall].
    intros H. injection H as <-. destruct b.
    + split; constructor; assumption.
    + split; [constructor|]; assumption.
Qed.

Lemma Array_filter_all f kept :
  Forall (fun d => f d = Normal true) kept -> Array_filter f kept = Normal kept.
Proof.
  induction 1 as [|d kept Hd _ IH]; cbn [Array_filter]; [reflexivity|].
  now rewrite Hd, IH.
Qed.

(** The severity path, for every object that is a publish-diagnostics
    notification. *)
Lemma filterDiagnostics_severity_path cfg props :
  dropAll cfg = false -> is_publish (JObject props) = true ->
  filterDiagnostics cfg (JObject props) =
  match lookup (js "params") props with
  | Some (JObject pprops) =>
      match lookup (js "diagnostics") pprops with
      | Some (JArray ds) =>
          filtered <- Array_filter (keep_diagnostic cfg) ds;;
          _ <- ToStringV (lookup (js "uri") pprops);;
          Normal (Some (JObject
            (set_property (js "params")
               (JObject (set_property (js "diagnostics") (JArray filtered) pprops))
               props)))
      | _ => Throw TypeError
      end
  | _ => Throw TypeError
  end.
Proof.
  intros Hdrop Hm. unfold is_publish, method_of in Hm. cbn [property] in Hm.
  unfold filterDiagnostics. cbn [Get bind]. rewrite Hm, Hdrop. cbn [negb].
  destruct (lookup (js "params") props) as [[| | | | |pprops]|];
    cbn [GetV Get bind]; reflexivity.
Qed.

(** What a message the severity path returns is made of. *)
Lemma filterDiagnostics_returned cfg msg out :
  dropAll cfg = false -> is_publish msg = true ->
  filterDiagnostics cfg msg = Normal (Some out) ->
  exists props pprops ds kept,
    msg = JObject props /\
    lookup (js "params") props = Some (JObject pprops) /\
    lookup (js "diagnostics") pprops = Some (JArray ds) /\
    Array_filter (keep_diagnostic cfg) ds = Normal kept /\
    (exists text, ToStringV (lookup (js "uri") pprops) = Normal text) /\
    out = JObject
            (set_property (js "params")
               (JObject (set_property (js "diagnostics") (JArray kept) pprops))
               props).
Proof.
  intros Hdrop Hm. destruct (is_publish_object _ Hm) as [props ->].
  rewrite (filterDiagnostics_severity_path cfg props Hdrop Hm).
  destruct (lookup (js "params") props) as [[| | | | |pprops]|] eqn:Ep;
    try discriminate.
  destruct (lookup (js "diagnostics") pprops) as [[| | | |ds|]|] eqn:Ed;
    try discriminate.
  destruct (Array_filter (keep_diagnostic cfg) ds) as [kept|] eqn:Ef;
    cbn [bind]; [|discriminate].
  destruct (ToStringV (lookup (js "uri") pprops)) as [text|] eqn:Et;
    cbn [bind]; [|discriminate].
  intros H. injection H as <-.
  exists props, pprops, ds, kept. repeat split; eauto.
Qed.

(** X6 (filter).  The filter is idempotent: a message it has returned comes
    back unchanged when it is filtered again with the same configuration. *)
Theorem filterDiagnostics_idempotent (cfg : Config) (msg out : json) :
  filterDiagnostics cfg msg = Normal (Some out) ->
  filterDiagnostics cfg out = Normal (Some out).
Proof.
  intros H. destruct (is_publish msg) eqn:Hm.
  - destruct (dropAll cfg) eqn:Hdrop.
    + rewrite filterDiagnostics_dropAll in H by assumption.
      destruct (ToStringV (uri_of msg)); discriminate.
    + destruct (filterDiagnostics_returned cfg msg out Hdrop Hm H)
        as (props & pprops & ds & kept & -> & Hp & Hd & Hf & [text Ht] & ->).
      assert (Hm' : is_publish
                (JObject (set_property (js "params")
                   (JObject (set_property (js "diagnostics") (JArray kept) pprops))
                   props)) = true).
      { unfold is_publish, method_of in *. cbn [property] in *.
        now rewrite lookup_set_property_other by reflexivity. }
      rewrite (filterDiagnostics_severity_path cfg _ Hdrop Hm').
      rewrite !lookup_set_property.
      rewrite (Array_filter_all _ _ (proj2 (Array_filter_kept _ _ _ Hf))).
      cbn [bind].
      rewrite lookup_set_property_other, Ht by reflexivity. cbn [bind].
      now rewrite !set_property_twice.
  - destruct (json_is_null msg) as [-> | Hnull]; [discriminate|].
    rewrite (filterDiagnostics_value cfg msg Hnull Hm) in H.
    injection H as <-. now apply filterDiagnostics_value.
Qed.

(** X7 (filter).  The severity path changes nothing but the value of
    [params.diagnostics]: the message it returns has the same keys in the
    same order and the same value under every key but [params], and so has
    its [params] for every key but [diagnostics]. *)
Theorem filterDiagnostics_keeps_fields (cfg : Config) (msg out : json) :
  dropAll cfg = false -> is_publish msg = true ->
  filterDiagnostics cfg msg = Normal (Some out) ->
  exists props props' pprops pprops',
    msg = JObject props /\ out = JObject props' /\
    map fst props' = map fst props /\
    (forall k, jsstring_eqb k (js "params") = false ->
               lookup k props' = lookup k props) /\
    lookup (js "params") props = Some (JObject pprops) /\
    lookup (js "params") props' = Some (JObject pprops') /\
    map fst pprops' = map fst pprops /\
    (forall k, jsstring_eqb k (js "diagnostics") = false ->
               lookup k pprops' = lookup k pprops).
Proof.
  intros Hdrop Hm H.
  destruct (filterDiagnostics_returned cfg msg out Hdrop Hm H)
    as (props & pprops & ds & kept & -> & Hp & Hd & Hf & _ & ->).
  exists props,
    (set_property (js "params")
       (JObject (set_property (js "diagnostics") (JArray kept) pprops)) props),
    pprops, (set_property (js "diagnostics") (JArray kept) pprops).
  repeat split; auto.
  - apply (set_property_keys _ _ _ _ Hp).
  - intros k Hk. now apply lookup_set_property_other.
  - apply lookup_set_property.
  - apply (set_property_keys _ _ _ _ Hd).
  - intros k Hk. now apply lookup_set_property_other.
Qed.

(** X8 (filter).  The filter adds, repeats and reorders nothing: the
    diagnostics of the message it returns are those of the message it got
    with some left out, and each of them passed the test of the
    threshold. *)
Theorem filterDiagnostics_subsequence (cfg : Config) (msg out : json) :
  dropAll cfg = false -> is_publish msg = true ->
  filterDiagnostics cfg msg = Normal (Some out) ->
  exists ds kept,
    diagnostics_of msg = Some ds /\ diagnostics_of out = Some kept /\
    subsequence kept ds /\
    Forall (fun d => keep_diagnostic cfg d = Normal true) kept.
Proof.
  intros Hdrop Hm H.
  destruct (filterDiagnostics_returned cfg msg out Hdrop Hm H)
    as (props & pprops & ds & kept & -> & Hp & Hd & Hf & _ & ->).
  exists ds, kept. unfold diagnostics_of, params_of. cbn [property].
  rewrite Hp, lookup_set_property. cbn [property].
  rewrite Hd, lookup_set_property.
  split; [reflexivity|]. split; [reflexivity|].
  now apply Array_filter_kept.
Qed.

Lemma publishes_parts msg uri ds :
  publishes msg uri ds ->
  exists props pprops,
    msg = JObject props /\
    lookup (js "params") props = Some (JObject pprops) /\
    lookup (js "diagnostics") pprops = Some (JArray ds) /\
    lookup (js "uri") pprops = Some (JString uri).
Proof.
  intros (Hm & Hu & Hd & _). destruct (is_publish_object _ Hm) as [props ->].
  unfold uri_of, diagnostics_of, params_of in *. cbn [property] in *.
  destruct (lookup (js "params") props) as [[| | | | |pprops]|] eqn:Ep;
    try discriminate.
  cbn [property] in *.
  destruct (lookup (js "diagnostics") pprops) as [[| | | |ds'|]|] eqn:Ed;
    try discriminate.
  injection Hd as ->. exists props, pprops. auto.
Qed.

(** The severity path on a payload of the declared shape, with the parts of
    the message named. *)
Lemma filterDiagnostics_shape cfg props pprops uri ds :
  dropAll cfg = false ->
  publishes (JObject props) uri ds ->
  lookup (js "params") props = Some (JObject pprops) ->
  filterDiagnostics cfg (JObject props) =
  Normal (Some (JObject
    (set_property (js "params")
       (JObject (set_property (js "diagnostics")
                   (JArray (retained (minSeverity cfg) ds)) pprops))
       props))).
Proof.
  intros Hdrop Hpub Hp.
  destruct (filterDiagnostics_typed cfg _ uri ds Hdrop Hpub)
    as (props0 & pprops0 & Heq & Hp0 & Hout).
  injection Heq as <-. rewrite Hp in Hp0. injection Hp0 as <-. exact Hout.
Qed.

(** X9 (filter).  When every diagnostic is within the threshold the filter
    returns the message it got, unchanged: with all severities in 1..4,
    threshold 4 is no filter at all. *)
Theorem filterDiagnostics_all_pass (cfg : Config) (msg : json)
  (uri : jsstring) (ds : list json) :
  dropAll cfg = false -> publishes msg uri ds ->
  Forall (fun d => number_le (severity_of d) (minSeverity cfg) = true) ds ->
  filterDiagnostics cfg msg = Normal (Some msg).
Proof.
  intros Hdrop Hpub Hall.
  destruct (publishes_parts _ _ _ Hpub) as (props & pprops & -> & Hp & Hd & _).
  rewrite (filterDiagnostics_shape cfg props pprops uri ds Hdrop Hpub Hp).
  assert (Hret : retained (minSeverity cfg) ds = ds).
  { clear - Hall. unfold retained.
    induction Hall as [|d ds Hd' _ IH]; cbn [filter]; [reflexivity|].
    now rewrite Hd', IH. }
  rewrite Hret, (set_property_same _ _ _ Hd), (set_property_same _ _ _ Hp).
  reflexivity.
Qed.

Lemma number_le_NaN n : number_le n NaN = false.
Proof. destruct n; reflexivity. Qed.

Lemma retained_NaN ds : retained NaN ds = [].
Proof.
  unfold retained. induction ds as [|d ds IH]; cbn [filter]; [reflexivity|].
  now rewrite number_le_NaN.
Qed.

(** X10 (filter).  A threshold that is not a number (a value of
    [STAY_FRESH_MIN_SEVERITY] that [parseInt] cannot read) removes every
    diagnostic: each notification is forwarded with an empty array. *)
Theorem NaN_threshold_clears (cfg : Config) (msg : json) (uri : jsstring)
  (ds : list json) :
  dropAll cfg = false -> minSeverity cfg = NaN -> publishes msg uri ds ->
  exists out,
    filterDiagnostics cfg msg = Normal (Some out) /\ publishes out uri [].
Proof.
  intros Hdrop HT Hpub.
  destruct (publishes_parts _ _ _ Hpub) as (props & pprops & -> & Hp & _).
  eexists. split.
  - apply (filterDiagnostics_shape cfg props pprops uri ds Hdrop Hpub Hp).
  - rewrite HT, retained_NaN.
    apply (publishes_filtered (JObject props) uri ds props pprops []); auto.
Qed.

Lemma number_le_trans a b c :
  number_le a b = true -> number_le b c = true -> number_le a c = true.
Proof.
  destruct a as [|na|x], b as [|nb|y], c as [|nc|z]; simpl;
    try discriminate; try reflexivity;
    try (destruct na); try (destruct nb); try (destruct nc);
    try discriminate; try reflexivity.
  unfold Qlt_bool. rewrite !negb_involutive, !Qle_bool_iff. apply Qle_trans.
Qed.

Lemma retained_retained T1 T2 ds :
  number_le T1 T2 = true -> retained T1 (retained T2 ds) = retained T1 ds.
Proof.
  intros HT. unfold retained. induction ds as [|d ds IH]; cbn [filter];
    [reflexivity|].
  destruct (number_le (severity_of d) T2) eqn:E2; cbn [filter].
  - now rewrite IH.
  - destruct (number_le (severity_of d) T1) eqn:E1; [|exact IH].
    rewrite (number_le_trans _ _ _ E1 HT) in E2. discriminate.
Qed.

(** X11 (filter).  Filters compose to the stricter one: filtering with
    threshold [T2] and then with a threshold [T1 <= T2] gives what filtering
    with [T1] gives (two proxies in a row behave as the stricter one). *)
Theorem filterDiagnostics_compose (cfg1 cfg2 : Config) (msg : json)
  (uri : jsstring) (ds : list json) :
  dropAll cfg1 = false -> dropAll cfg2 = false ->
  number_le (minSeverity cfg1) (minSeverity cfg2) = true ->
  publishes msg uri ds ->
  exists out,
    filterDiagnostics cfg2 msg = Normal (Some out) /\
    filterDiagnostics cfg1 out = filterDiagnostics cfg1 msg.
Proof.
  intros Hdrop1 Hdrop2 HT Hpub.
  destruct (publishes_parts _ _ _ Hpub) as (props & pprops & -> & Hp & _).
  eexists. split.
  - apply (filterDiagnostics_shape cfg2 props pprops uri ds Hdrop2 Hpub Hp).
  - rewrite (filterDiagnostics_shape cfg1 props pprops uri ds Hdrop1 Hpub Hp).
    set (pprops2 := set_property (js "diagnostics")
                      (JArray (retained (minSeverity cfg2) ds)) pprops).
    assert (Hpub2 : publishes
              (JObject (set_property (js "params") (JObject pprops2) props))
              uri (retained (minSeverity cfg2) ds)).
    { apply (publishes_filtered (JObject props) uri ds props pprops); auto.
      apply retained_typed. apply Hpub. }
    rewrite (filterDiagnostics_shape cfg1 _ pprops2 uri _ Hdrop1 Hpub2
               (lookup_set_property _ _ _)).
    subst pprops2.
    rewrite !set_property_twice, (retained_retained _ _ _ HT). reflexivity.
Qed.

(* ================================================================ *)
(** ** Encoder, parser and filter together *)

Lemma feed_valid_frames frames :
  Forall valid_frame frames ->
  feed new_MessageParser (concat (map frame_bytes frames)) =
  (new_MessageParser, map frame_message frames).
Proof.
  intros H. destruct (frames_as_segments frames H) as (Hok & Hbytes & Hmsgs).
  rewrite feed_new, <- Hbytes, <- (app_nil_r (concat _)).
  rewrite (drain_segments _ [] Hok), Hmsgs.
  rewrite drain_idle by reflexivity. now rewrite app_nil_r.
Qed.

Lemma encoded_frames msgs :
  Forall reads_back msgs ->
  exists frames,
    Forall valid_frame frames /\
    map frame_bytes frames = map encodeMessage msgs /\
    map frame_message frames = msgs.
Proof.
  induction 1 as [|m msgs [Hlen Hparse] _ (frames & Hv & Hb & Hm)].
  - exists []. repeat split. constructor.
  - destruct (encodeMessage_valid_frame m m Hlen Hparse) as (f & Hfb & Hfm & Hfv).
    exists (f :: frames). cbn [map]. rewrite Hfb, Hfm, Hb, Hm.
    repeat split. constructor; assumption.
Qed.

(** X12 (encoder and parser).  Decoding undoes encoding: a parser fed the
    frames [encodeMessage] makes of a list of messages calls [onMessage]
    with these messages, in order, and is left empty, for messages whose
    JSON text the host reads back. *)
Theorem encode_feed_round_trip (msgs : list json) :
  Forall reads_back msgs ->
  feed new_MessageParser (concat (map encodeMessage msgs)) =
  (new_MessageParser, msgs).
Proof.
  intros H. destruct (encoded_frames msgs H) as (frames & Hv & Hb & Hm).
  rewrite <- Hb.
  replace (new_MessageParser, msgs)
    with (new_MessageParser, map frame_message frames) by now rewrite Hm.
  now apply feed_valid_frames.
Qed.

(** X13 (proxy).  With drop-all, the default, the proxy writes the messages
    of the frames it receives re-encoded and in order, but for the
    publish-diagnostics notifications, which it leaves out. *)
Theorem dropAll_forwards_the_rest (cfg : Config) (frames : list frame) :
  dropAll cfg = true ->
  Forall valid_frame frames ->
  Forall is_object (map frame_message frames) ->
  on_data cfg new_MessageParser (concat (map frame_bytes frames)) =
  (new_MessageParser,
   concat (map encodeMessage
             (filter (fun m => negb (is_publish m)) (map frame_message frames)))).
Proof.
  intros Hdrop Hv Hobj. unfold on_data. rewrite (feed_valid_frames _ Hv).
  f_equal. induction Hobj as [|m msgs [props ->] _ IH]; [reflexivity|].
  cbn [map concat filter]. rewrite IH.
  destruct (is_publish (JObject props)) eqn:Hm; cbn [negb map concat].
  - now rewrite dropAll_writes_nothing.
  - unfold written, forward.
    rewrite filterDiagnostics_value by (discriminate || exact Hm).
    reflexivity.
Qed.

(* ================================================================ *)
(** ** The header pattern *)

Lemma letter_not_whitespace c :
  (65 <= c <= 122)%N -> is_whitespace c = false /\ is_digit c = false.
Proof.
  intros H. split.
  - unfold is_whitespace.
    repeat match goal with
           | |- (_ || _)%bool = false => apply orb_false_intro
           | |- (_ && _)%bool = false => apply andb_false_iff
           | |- (_ =? _)%N = false => apply N.eqb_neq; lia
           end.
    + right. apply N.leb_gt. lia.
    + left. apply N.leb_gt. lia.
  - unfold is_digit. apply andb_false_iff. right. apply N.leb_gt. lia.
Qed.

(** Two code units with the same case folding are equal or two letters. *)
Lemma canonicalize_eq c c' :
  canonicalize c = canonicalize c' ->
  c = c' \/ ((65 <= c <= 122)%N /\ (65 <= c' <= 122)%N).
Proof.
  unfold canonicalize.
  destruct ((97 <=? c) && (c <=? 122))%N eqn:E;
    destruct ((97 <=? c') && (c' <=? 122))%N eqn:E';
    try (apply andb_true_iff in E as [E1 E2];
         apply N.leb_le in E1; apply N.leb_le in E2);
    try (apply andb_true_iff in E' as [E1' E2'];
         apply N.leb_le in E1'; apply N.leb_le in E2');
    intros H; try (left; lia); right; lia.
Qed.

Lemma takeWhile_digit_case s s' :
  same_but_case s s' -> takeWhile is_digit s = takeWhile is_digit s'.
Proof.
  unfold same_but_case.
  revert s'; induction s as [|c s IH]; intros [|c' s']; try discriminate;
    [reflexivity|].
  cbn [map]. intros H. injection H as Hc Hs. cbn [takeWhile].
  destruct (canonicalize_eq _ _ Hc) as [<- | [Hl Hl']].
  - now rewrite (IH s' Hs).
  - now rewrite (proj2 (letter_not_whitespace _ Hl)),
                (proj2 (letter_not_whitespace _ Hl')).
Qed.

Lemma dropWhile_whitespace_case s s' :
  same_but_case s s' ->
  same_but_case (dropWhile is_whitespace s) (dropWhile is_whitespace s').
Proof.
  unfold same_but_case.
  revert s'; induction s as [|c s IH]; intros [|c' s']; try discriminate;
    [reflexivity|].
  cbn [map]. intros H. injection H as Hc Hs. cbn [dropWhile].
  destruct (canonicalize_eq _ _ Hc) as [<- | [Hl Hl']].
  - destruct (is_whitespace c); [now apply IH|]. cbn [map]. now rewrite Hs.
  - rewrite (proj1 (letter_not_whitespace _ Hl)),
            (proj1 (letter_not_whitespace _ Hl')).
    cbn [map]. now rewrite Hc, Hs.
Qed.

Lemma match_literal_ci_case pat s s' :
  same_but_case s s' ->
  match match_literal_ci pat s, match_literal_ci pat s' with
  | Some rest, Some rest' => same_but_case rest rest'
  | None, None => True
  | _, _ => False
  end.
Proof.
  unfold same_but_case.
  revert s s'; induction pat as [|p pat IH]; intros s s' H;
    cbn [match_literal_ci]; [exact H|].
  destruct s as [|c s], s' as [|c' s']; try discriminate; [exact I|].
  cbn [map] in H. injection H as Hc Hs. rewrite <- Hc.
  destruct (canonicalize p =? canonicalize c)%N; [now apply IH | exact I].
Qed.

Lemma match_here_case s s' :
  same_but_case s s' -> match_here s = match_here s'.
Proof.
  intros H. unfold match_here.
  pose proof (match_literal_ci_case (js "Content-Length:") s s' H) as Hm.
  destruct (match_literal_ci _ s) as [rest|],
           (match_literal_ci _ s') as [rest'|]; try contradiction;
    [|reflexivity].
  now rewrite (takeWhile_digit_case _ _ (dropWhile_whitespace_case _ _ Hm)).
Qed.

(** X14 (parser).  The length field is found whatever the case of the
    letters of the header block: two header blocks that differ in the case
    of ASCII letters only give the same length, or none. *)
Theorem header_match_ignores_case (s s' : jsstring) :
  same_but_case s s' -> header_match s = header_match s'.
Proof.
  revert s'; induction s as [|c s IH]; intros [|c' s'] H;
    try discriminate H; [reflexivity|].
  cbn [header_match]. rewrite (match_here_case _ _ H).
  destruct (match_here (c' :: s')); [reflexivity|].
  apply IH. unfold same_but_case in *. cbn [map] in H. now injection H.
Qed.

(* ================================================================ *)
(** ** The settings file of the installer *)

Lemma delete_set_property k v props :
  lookup k props = None ->
  delete_property k (set_property k v props) = props.
Proof.
  induction props as [|[k0 v0] props IH];
    cbn [lookup set_property delete_property].
  - now rewrite jsstring_eqb_refl.
  - destruct (jsstring_eqb k k0) eqn:E; [discriminate|].
    intros H. cbn [delete_property]. now rewrite E, IH.
Qed.

Lemma lookup_delete_property k props :
  lookup k (delete_property k props) = None.
Proof.
  induction props as [|[k0 v0] props IH]; cbn [delete_property lookup].
  - reflexivity.
  - destruct (jsstring_eqb k k0) eqn:E; [exact IH|].
    cbn [lookup]. now rewrite E.
Qed.

Lemma ensure_settings_object props :
  ensure_settings (JObject props) =
  match lookup (js "env") props with
  | Some (JObject eprops) =>
      match lookup ENABLE_LSP_TOOL eprops with
      | Some (JString s) =>
          if jsstring_eqb s (js "1") then Normal None
          else Normal (Some (JObject
                 (set_property (js "env")
                    (JObject (set_property ENABLE_LSP_TOOL (JString (js "1")) eprops))
                    props)))
      | _ => Normal (Some (JObject
               (set_property (js "env")
                  (JObject (set_property ENABLE_LSP_TOOL (JString (js "1")) eprops))
                  props)))
      end
  | Some (JArray l) =>
      Normal (Some (JObject (set_property (js "env") (JArray l) props)))
  | Some v =>
      if truthy v then Throw TypeError
      else Normal (Some (JObject
             (set_property (js "env")
                (JObject [(ENABLE_LSP_TOOL, JString (js "1"))]) props)))
  | None =>
      Normal (Some (JObject
        (set_property (js "env")
           (JObject [(ENABLE_LSP_TOOL, JString (js "1"))]) props)))
  end.
Proof.
  unfold ensure_settings. cbn [Get bind].
  destruct (lookup (js "env") props) as [[|b|n|s|l|eprops]|]; cbn [truthy];
    try reflexivity.
  - destruct b; reflexivity.
  - destruct n as [| |q]; try reflexivity. destruct (negb _); reflexivity.
  - destruct s; reflexivity.
  - cbn [Get bind].
    destruct (lookup ENABLE_LSP_TOOL eprops) as [[| | |s| |]|]; try reflexivity.
Qed.

(** X15 (installer).  Uninstalling undoes installing on the settings: for
    settings that are an object without [env], or whose [env] holds other
    variables and not [ENABLE_LSP_TOOL], [ensureEnableLspTool] writes
    settings from which [removeEnableLspTool] writes the original ones
    back (the host reading back the text written in between). *)
Theorem uninstall_restores_settings (file : option jsstring)
  (props : list (jsstring * json)) :
  match file with
  | Some text => JSON_parse text = Some (JObject props)
  | None => props = []
  end ->
  without_flag props ->
  exists installed,
    ensureEnableLspTool file =
      Normal (Some (JSON_stringify_indent installed ++ [10%N])) /\
    (JSON_parse (JSON_stringify_indent installed ++ [10%N]) = Some installed ->
     removeEnableLspTool (Some (JSON_stringify_indent installed ++ [10%N])) =
       Normal (Some (JSON_stringify_indent (JObject props) ++ [10%N]))).
Proof.
  intros Hfile Hflag.
  assert (Hread : ensureEnableLspTool file =
                  (written <- ensure_settings (JObject props);;
                   match written with
                   | Some settings' =>
                       Normal (Some (JSON_stringify_indent settings' ++ [10%N]))
                   | None => Normal file
                   end)).
  { unfold ensureEnableLspTool. destruct file as [text|].
    - now rewrite Hfile.
    - now subst props. }
  rewrite Hread, ensure_settings_object. clear Hread Hfile.
  destruct Hflag as [Henv | (eprops & Henv & Hne & Hno)]; rewrite Henv.
  - eexists. split; [reflexivity|]. intros Hback.
    unfold removeEnableLspTool. rewrite Hback.
    unfold remove_settings. cbn [Get bind].
    rewrite lookup_set_property. cbn [truthy negb has_property lookup].
    unfold ENABLE_LSP_TOOL at 1 2. rewrite jsstring_eqb_refl.
    cbn [bind negb delete delete_property].
    fold ENABLE_LSP_TOOL. rewrite jsstring_eqb_refl.
    cbn [no_keys spread bind delete].
    now rewrite (delete_set_property _ _ _ Henv).
  - rewrite Hno. eexists. split; [reflexivity|]. intros Hback.
    unfold removeEnableLspTool. rewrite Hback.
    unfold remove_settings. cbn [Get bind].
    rewrite lookup_set_property. cbn [truthy negb has_property].
    rewrite lookup_set_property. cbn [bind negb delete].
    rewrite (delete_set_property _ _ _ Hno).
    destruct eprops as [|kv eprops]; [contradiction|].
    cbn [no_keys spread assign bind].
    now rewrite set_property_twice, (set_property_same _ _ _ Henv).
Qed.

(** X16 (installer).  Installing twice is installing once: on the settings
    [ensureEnableLspTool] has written, a second call finds the variable
    set and writes nothing, or (for settings that are an array, or whose
    [env] is one) writes the same settings again. *)
Theorem ensure_settings_idempotent (settings written : json) :
  ensure_settings settings = Normal (Some written) ->
  ensure_settings written = Normal None \/
  ensure_settings written = Normal (Some written).
Proof.
  destruct settings as [|b|n|s|l|props].
  - discriminate.
  - discriminate.
  - discriminate.
  - discriminate.
  - intros H. injection H as <-. right. reflexivity.
  - rewrite ensure_settings_object.
    assert (Hset : forall eprops,
      ensure_settings
        (JObject (set_property (js "env")
           (JObject (set_property ENABLE_LSP_TOOL (JString (js "1")) eprops))
           props)) = Normal None).
    { intros eprops. rewrite ensure_settings_object.
      now rewrite !lookup_set_property. }
    assert (Hnew :
      ensure_settings
        (JObject (set_property (js "env")
           (JObject [(ENABLE_LSP_TOOL, JString (js "1"))]) props)) = Normal None).
    { apply (Hset []). }
    destruct (lookup (js "env") props) as [[|b|n|s|l|eprops]|] eqn:Henv.
    + intros H. injection H as <-. now left.
    + destruct (truthy (JBool b)); [discriminate|].
      intros H. injection H as <-. now left.
    + destruct (truthy (JNumber n)); [discriminate|].
      intros H. injection H as <-. now left.
    + destruct (truthy (JString s)); [discriminate|].
      intros H. injection H as <-. now left.
    + intros H. injection H as <-. right.
      rewrite ensure_settings_object, lookup_set_property.
      now rewrite set_property_twice.
    + destruct (lookup ENABLE_LSP_TOOL eprops) as [[| | |s| |]|];
        try (intros H; injection H as <-; left; apply Hset).
      destruct (jsstring_eqb s (js "1")); [discriminate|].
      intros H; injection H as <-; left; apply Hset.
    + intros H. injection H as <-. now left.
Qed.

(** X17 (installer).  Uninstalling twice is uninstalling once: on the
    settings [removeEnableLspTool] has written, a second call finds no
    [ENABLE_LSP_TOOL] and writes nothing. *)
Theorem remove_settings_idempotent (settings written : json) :
  remove_settings settings = Normal (Some written) ->
  remove_settings written = Normal None.
Proof.
  unfold remove_settings at 1.
  destruct settings as [|b|n|s|l|props]; try discriminate.
  cbn [Get bind].
  destruct (lookup (js "env") props) as [env|] eqn:Henv; [|discriminate].
  destruct (negb (truthy env)); [discriminate|].
  destruct env as [|b|n|s|l|eprops]; try discriminate.
  cbn [has_property bind].
  destruct (lookup ENABLE_LSP_TOOL eprops) as [flag|]; [|discriminate].
  cbn [negb delete].
  destruct (no_keys (JObject (delete_property ENABLE_LSP_TOOL eprops)));
    cbn [delete assign bind]; intros H; injection H as <-;
    unfold remove_settings; cbn [Get bind].
  - now rewrite lookup_delete_property.
  - rewrite lookup_set_property. cbn [truthy negb has_property].
    now rewrite lookup_delete_property.
Qed.

(** X18 (installer).  [ensureEnableLspTool] touches nothing else: the
    settings it writes for an object have the value of the original under
    every key but [env], and when [env] was an object, it still is one,
    with [ENABLE_LSP_TOOL] at ["1"] and every other variable as it was. *)
Theorem ensure_settings_keeps_the_rest (props : list (jsstring * json))
  (written : json) :
  ensure_settings (JObject props) = Normal (Some written) ->
  exists props',
    written = JObject props' /\
    (forall k, jsstring_eqb k (js "env") = false ->
               lookup k props' = lookup k props) /\
    (forall eprops,
       lookup (js "env") props = Some (JObject eprops) ->
       exists eprops',
         lookup (js "env") props' = Some (JObject eprops') /\
         lookup ENABLE_LSP_TOOL eprops' = Some (JString (js "1")) /\
         forall k, jsstring_eqb k ENABLE_LSP_TOOL = false ->
                   lookup k eprops' = lookup k eprops).
Proof.
  rewrite ensure_settings_object.
  assert (Hother : forall v k, jsstring_eqb k (js "env") = false ->
            lookup k (set_property (js "env") v props) = lookup k props).
  { intros v k Hk. now apply lookup_set_property_other. }
  destruct (lookup (js "env") props) as [[|b|n|s|l|eprops]|] eqn:Henv.
  - intros H. injection H as <-. eexists. split; [reflexivity|].
    split; [apply Hother | discriminate].
  - destruct (truthy (JBool b)); [discriminate|].
    intros H. injection H as <-. eexists. split; [reflexivity|].
    split; [apply Hother | discriminate].
  - destruct (truthy (JNumber n)); [discriminate|].
    intros H. injection H as <-. eexists. split; [reflexivity|].
    split; [apply Hother | discriminate].
  - destruct (truthy (JString s)); [discriminate|].
    intros H. injection H as <-. eexists. split; [reflexivity|].
    split; [apply Hother | discriminate].
  - intros H. injection H as <-. eexists. split; [reflexivity|].
    split; [apply Hother | discriminate].
  - assert (Hgoal : forall w,
      Normal (Some (JObject (set_property (js "env")
        (JObject (set_property ENABLE_LSP_TOOL (JString (js "1")) eprops))
        props))) = Normal (Some w) ->
      exists props',
        w = JObject props' /\
        (forall k, jsstring_eqb k (js "env") = false ->
                   lookup k props' = lookup k props) /\
        (forall eprops0,
           Some (JObject eprops) = Some (JObject eprops0) ->
           exists eprops',
             lookup (js "env") props' = Some (JObject eprops') /\
             lookup ENABLE_LSP_TOOL eprops' = Some (JString (js "1")) /\
             forall k, jsstring_eqb k ENABLE_LSP_TOOL = false ->
                       lookup k eprops' = lookup k eprops0)).
    { intros w H. injection H as <-. eexists. split; [reflexivity|].
      split; [apply Hother|].
      intros eprops0 H0. injection H0 as <-. eexists.
      split; [apply lookup_set_property|].
      split; [apply lookup_set_property|].
      intros k Hk. now apply lookup_set_property_other. }
    destruct (lookup ENABLE_LSP_TOOL eprops) as [[| | |s| |]|];
      try apply Hgoal.
    destruct (jsstring_eqb s (js "1")); [discriminate | apply Hgoal].
  - intros H. injection H as <-. eexists. split; [reflexivity|].
    split; [apply Hother | discriminate].
Qed.

End Proxy.



(* ================================================================== *)
(** ** The statements at concrete inputs *)

Module H := SampleHost.

(** Evaluation of a closed equation; [announced] leaves the equation on the
    digits it has read in the header. *)
Ltac run := vm_compute; reflexivity.
Ltac announced := split; [run | eexists; split; [run |]].

(** C5 at a request of method [foo] and the default configuration. *)
Lemma filterDiagnostics_identity_witness :
  filterDiagnostics H.StringToNumber H.NumberToString H.default_config
    H.request_foo = Normal (Some H.request_foo).
Proof.
  apply filterDiagnostics_identity; [discriminate | reflexivity].
Defined.


(** C3 at a warning and a diagnostic without severity, threshold 1. *)
Lemma severity_threshold_witness :
  exists out,
    filterDiagnostics H.StringToNumber H.NumberToString H.errors_only
      H.publish_warning_plain = Normal (Some out) /\
    publishes out (js "file:///b.ts")
      (retained (Finite 1) [H.value "{'severity':2,'message':'w'}";
                            H.value "{'message':'m'}"]).
Proof.
  apply (severity_threshold H.StringToNumber H.NumberToString H.errors_only
           H.publish_warning_plain);
    [run | split; [run | split; [run | split; [run |]]]].
  apply Forall_cons; [exact I |].
  apply Forall_cons; [exact I |].
  apply Forall_nil.
Defined.

(** C4 at an error and a hint, threshold 0. *)
Lemma empty_result_forwarded_witness :
  filterDiagnostics H.StringToNumber H.NumberToString H.nothing_kept
    H.publish_error_hint <> Normal None /\
  exists out,
    filterDiagnostics H.StringToNumber H.NumberToString H.nothing_kept
      H.publish_error_hint = Normal (Some out) /\
    publishes out (js "file:///a.ts") [] /\
    written H.JSON_stringify H.StringToNumber H.NumberToString H.nothing_kept
      H.publish_error_hint = encodeMessage H.JSON_stringify out.
Proof.
  destruct (empty_result_forwarded H.JSON_stringify H.StringToNumber
              H.NumberToString H.nothing_kept H.publish_error_hint eq_refl)
    as [Hnull Hempty].
  split; [exact Hnull |].
  apply (Hempty (js "file:///a.ts")
           [H.value "{'severity':1,'message':'e'}";
            H.value "{'severity':4,'message':'h'}"]); [| run].
  split; [run | split; [run | split; [run |]]].
  apply Forall_cons; [exact I |].
  apply Forall_cons; [exact I |].
  apply Forall_nil.
Defined.

(** C10 at a notification without [params]. *)
Lemma filterDiagnostics_needs_array_witness :
  diagnostics_of H.publish_without_params = None /\
  filterDiagnostics H.StringToNumber H.NumberToString H.errors_only
    H.publish_without_params = Throw TypeError.
Proof.
  split; [reflexivity |].
  apply (proj1 (filterDiagnostics_needs_array H.StringToNumber H.NumberToString
                  H.errors_only H.publish_without_params eq_refl eq_refl)).
  reflexivity.
Defined.

Lemma two_frames_valid :
  Forall (valid_frame H.JSON_parse H.toString_utf8) H.two_frames.
Proof.
  apply Forall_cons; [split; [announced | run] |].
  { run. }
  apply Forall_cons; [split; [announced | run] |].
  { run. }
  apply Forall_nil.
Defined.

(** C6 at two frames in one chunk, and at a header without its separator. *)
Lemma multi_frame_draining_witness :
  feed H.JSON_parse H.toString_utf8 new_MessageParser
    (concat (map frame_bytes H.two_frames)) =
    (new_MessageParser, map frame_message H.two_frames) /\
  no_complete_frame
    (fst (feed H.JSON_parse H.toString_utf8 new_MessageParser
            (H.ascii_bytes "Content-Length: 2"))).
Proof.
  apply multi_frame_draining. exact two_frames_valid.
Defined.

Lemma corrupt_stream_ok : Forall segment_ok H.corrupt_stream.
Proof.
  apply Forall_cons; [split; run |].
  apply Forall_cons; [announced |].
  { run. }
  apply Forall_cons; [announced |].
  { run. }
  apply Forall_nil.
Defined.

(** C7 at a stream with an unparsable header and a body that is not JSON,
    followed by the start of a header. *)
Lemma corruption_contained_witness :
  feed H.JSON_parse H.toString_utf8 new_MessageParser
    (concat (map segment_bytes H.corrupt_stream) ++ H.ascii_bytes "Content-Le") =
  let (p, later) :=
    feed H.JSON_parse H.toString_utf8 new_MessageParser
      (H.ascii_bytes "Content-Le") in
  (p, flat_map (segment_messages H.JSON_parse H.toString_utf8) H.corrupt_stream
        ++ later).
Proof.
  apply corruption_contained. exact corrupt_stream_ok.
Defined.

(** C7 as the claim states it fails: resynchronisation is best effort.  The
    bytes that follow a discarded header block are read as the next header
    block; here they hold a length of their own, the parser takes it for the
    announced length and waits for 99 bytes with the body of the valid frame
    in its buffer: the frame is not emitted. *)
Lemma corrupt_header_loses_next_frame :
  unparsable H.misspelt_header /\
  valid_frame H.JSON_parse H.toString_utf8 H.lost_frame /\
  feed H.JSON_parse H.toString_utf8 new_MessageParser H.desynchronised_stream =
    ({| buffer := frame_body H.lost_frame;
        contentLength := Some (number_of_Z 99) |}, []).
Proof.
  split; [split; run |]. split; [split; [announced | run] | run].
  run.
Qed.


(** C8 as the claim states it fails on a variable that is set to the empty
    string: [||] takes the default and the threshold is 1, where [parseInt] of
    the value is [NaN]. *)
Lemma minSeverity_empty_value :
  minSeverity (config H.empty_minSeverity) = number_of_Z 1 /\
  minSeverity_as_claimed H.empty_minSeverity = NaN.
Proof. split; reflexivity. Qed.

(* ================================================================== *)
(** ** Runs of the proxy *)

(** The scenario of the specification: severities 1 and 4 with threshold 1
    leave the severity-1 diagnostic. *)
Example threshold_one_keeps_the_error :
  filterDiagnostics H.StringToNumber H.NumberToString H.errors_only
    H.publish_error_hint = Normal (Some H.publish_error).
Proof. run. Qed.

(** With the default configuration a publish-diagnostics frame is dropped and
    the frame after it is written as it came. *)
Example default_drops_diagnostics_only :
  on_data H.JSON_parse H.JSON_stringify H.toString_utf8 H.StringToNumber
    H.NumberToString H.default_config new_MessageParser
    (encodeMessage H.JSON_stringify H.publish_error_hint
       ++ encodeMessage H.JSON_stringify H.request_foo) =
  (new_MessageParser, encodeMessage H.JSON_stringify H.request_foo).
Proof. run. Qed.

(** A frame cut inside its header, inside its separator and inside its body;
    the second header waits for its body. *)
Example chunks_of_a_frame :
  feed_all H.JSON_parse H.toString_utf8 new_MessageParser
    [H.ascii_bytes "Content-Len";
     H.ascii_bytes "gth: 4" ++ [x0d; x0a; x0d];
     x0a :: H.ascii_bytes "tr";
     H.ascii_bytes "ueContent-Length: 9" ++ CRLFCRLF ++ H.ascii_bytes "abc"] =
  ({| buffer := H.ascii_bytes "abc"; contentLength := Some (number_of_Z 9) |},
   [JBool true]).
Proof. run. Qed.

(** The declared length counts bytes: the three code units of ["é"] are four
    bytes. *)
Example multi_byte_length :
  H.JSON_stringify H.e_acute = [34; 233; 34]%N /\
  encodeMessage H.JSON_stringify H.e_acute =
    H.ascii_bytes "Content-Length: 4" ++ CRLFCRLF ++ [x22; xc3; xa9; x22].
Proof. split; run. Qed.

(** Values of [STAY_FRESH_MIN_SEVERITY] outside 1..4 and values that are not
    numbers are taken as [parseInt] reads them. *)
Example minSeverity_values :
  minSeverity (config (H.setenv [("STAY_FRESH_MIN_SEVERITY", "9")])) = number_of_Z 9 /\
  minSeverity (config (H.setenv [("STAY_FRESH_MIN_SEVERITY", " -3")])) = number_of_Z (-3) /\
  minSeverity (config (H.setenv [("STAY_FRESH_MIN_SEVERITY", "2.5")])) = number_of_Z 2 /\
  minSeverity (config (H.setenv [("STAY_FRESH_MIN_SEVERITY", "high")])) = NaN /\
  minSeverity (config (H.setenv [])) = number_of_Z 1.
Proof. repeat split; run. Qed.

(** What [filterDiagnostics] throws is caught in [drain]: nothing is
    written. *)
Example thrown_is_not_written :
  filterDiagnostics H.StringToNumber H.NumberToString H.errors_only
    H.publish_without_params = Throw TypeError /\
  written H.JSON_stringify H.StringToNumber H.NumberToString H.errors_only
    H.publish_without_params = [].
Proof. split; run. Qed.

(** The text of [params.uri] is needed for the log line even when the
    diagnostics are dropped: a [uri] that has no text makes the filter
    throw. *)
Example uri_without_text :
  filterDiagnostics H.StringToNumber H.NumberToString H.default_config
    H.publish_odd_uri = Throw TypeError.
Proof. run. Qed.

(* ================================================================== *)
(** ** Further statements at concrete inputs *)

(** X1 at a parser that awaits 7 bytes and receives two more. *)
Lemma awaiting_body_buffers_witness :
  feed_all H.JSON_parse H.toString_utf8
    {| buffer := H.ascii_bytes "{'a'"; contentLength := Some (number_of_Z 7) |}
    [H.ascii_bytes ":"; H.ascii_bytes "1"] =
  ({| buffer := H.ascii_bytes "{'a'"
                  ++ concat [H.ascii_bytes ":"; H.ascii_bytes "1"];
      contentLength := Some (number_of_Z 7) |}, []).
Proof.
  apply (awaiting_body_buffers H.JSON_parse H.toString_utf8
           {| buffer := H.ascii_bytes "{'a'";
              contentLength := Some (number_of_Z 7) |}
           (number_of_Z 7) [H.ascii_bytes ":"; H.ascii_bytes "1"]);
    [reflexivity | run].
Defined.

(** X4 at a request of method [foo]. *)
Lemma written_other_method_witness :
  written H.JSON_stringify H.StringToNumber H.NumberToString H.errors_only
    H.request_foo =
  (if truthy H.request_foo then encodeMessage H.JSON_stringify H.request_foo
   else []).
Proof.
  apply written_other_method. reflexivity.
Defined.

(** X6 at the notification the filter returns for an error and a hint. *)
Lemma filterDiagnostics_idempotent_witness :
  filterDiagnostics H.StringToNumber H.NumberToString H.errors_only
    H.publish_error = Normal (Some H.publish_error).
Proof.
  apply (filterDiagnostics_idempotent H.StringToNumber H.NumberToString
           H.errors_only H.publish_error_hint).
  run.
Defined.

(** X7 at an error and a hint, threshold 1. *)
Lemma filterDiagnostics_keeps_fields_witness :
  exists props props' pprops pprops',
    H.publish_error_hint = JObject props /\ H.publish_error = JObject props' /\
    map fst props' = map fst props /\
    (forall k, jsstring_eqb k (js "params") = false ->
               lookup k props' = lookup k props) /\
    lookup (js "params") props = Some (JObject pprops) /\
    lookup (js "params") props' = Some (JObject pprops') /\
    map fst pprops' = map fst pprops /\
    (forall k, jsstring_eqb k (js "diagnostics") = false ->
               lookup k pprops' = lookup k pprops).
Proof.
  apply (filterDiagnostics_keeps_fields H.StringToNumber H.NumberToString
           H.errors_only H.publish_error_hint H.publish_error);
    [reflexivity | reflexivity | run].
Defined.

(** X8 at an error and a hint, threshold 1. *)
Lemma filterDiagnostics_subsequence_witness :
  exists ds kept,
    diagnostics_of H.publish_error_hint = Some ds /\
    diagnostics_of H.publish_error = Some kept /\
    subsequence kept ds /\
    Forall (fun d => keep_diagnostic H.StringToNumber H.NumberToString
                       H.errors_only d = Normal true) kept.
Proof.
  apply (filterDiagnostics_subsequence H.StringToNumber H.NumberToString
           H.errors_only H.publish_error_hint H.publish_error);
    [reflexivity | reflexivity | run].
Defined.

Lemma publish_error_hint_publishes :
  publishes H.publish_error_hint (js "file:///a.ts")
    [H.value "{'severity':1,'message':'e'}";
     H.value "{'severity':4,'message':'h'}"].
Proof.
  split; [run | split; [run | split; [run |]]].
  apply Forall_cons; [exact I |].
  apply Forall_cons; [exact I |].
  apply Forall_nil.
Defined.

(** X9 at an error and a hint, threshold 4. *)
Lemma filterDiagnostics_all_pass_witness :
  filterDiagnostics H.StringToNumber H.NumberToString H.hints_too
    H.publish_error_hint = Normal (Some H.publish_error_hint).
Proof.
  apply (filterDiagnostics_all_pass H.StringToNumber H.NumberToString
           H.hints_too H.publish_error_hint (js "file:///a.ts")
           [H.value "{'severity':1,'message':'e'}";
            H.value "{'severity':4,'message':'h'}"]);
    [reflexivity | exact publish_error_hint_publishes |].
  apply Forall_cons; [run |].
  apply Forall_cons; [run |].
  apply Forall_nil.
Defined.

(** X10 at an error and a hint, [STAY_FRESH_MIN_SEVERITY=high]. *)
Lemma NaN_threshold_clears_witness :
  exists out,
    filterDiagnostics H.StringToNumber H.NumberToString H.not_a_number
      H.publish_error_hint = Normal (Some out) /\
    publishes out (js "file:///a.ts") [].
Proof.
  apply (NaN_threshold_clears H.StringToNumber H.NumberToString
           H.not_a_number H.publish_error_hint (js "file:///a.ts")
           [H.value "{'severity':1,'message':'e'}";
            H.value "{'severity':4,'message':'h'}"]);
    [reflexivity | run | exact publish_error_hint_publishes].
Defined.

(** X11 at thresholds 1 and 2. *)
Lemma filterDiagnostics_compose_witness :
  exists out,
    filterDiagnostics H.StringToNumber H.NumberToString H.warnings_too
      H.publish_error_hint = Normal (Some out) /\
    filterDiagnostics H.StringToNumber H.NumberToString H.errors_only out =
    filterDiagnostics H.StringToNumber H.NumberToString H.errors_only
      H.publish_error_hint.
Proof.
  apply (filterDiagnostics_compose H.StringToNumber H.NumberToString
           H.errors_only H.warnings_too H.publish_error_hint
           (js "file:///a.ts")
           [H.value "{'severity':1,'message':'e'}";
            H.value "{'severity':4,'message':'h'}"]);
    [reflexivity | reflexivity | run | exact publish_error_hint_publishes].
Defined.

(** X12 at a request and a notification. *)
Lemma encode_feed_round_trip_witness :
  feed H.JSON_parse H.toString_utf8 new_MessageParser
    (concat (map (encodeMessage H.JSON_stringify)
               [H.request_foo; H.publish_error_hint])) =
  (new_MessageParser, [H.request_foo; H.publish_error_hint]).
Proof.
  apply encode_feed_round_trip.
  apply Forall_cons; [split; run |].
  apply Forall_cons; [split; run |].
  apply Forall_nil.
Defined.

Lemma three_frames_valid :
  Forall (valid_frame H.JSON_parse H.toString_utf8) H.three_frames.
Proof.
  apply Forall_cons; [split; [announced | run] |].
  { run. }
  exact two_frames_valid.
Defined.

(** X13 at a publish-diagnostics frame followed by two other frames. *)
Lemma dropAll_forwards_the_rest_witness :
  on_data H.JSON_parse H.JSON_stringify H.toString_utf8 H.StringToNumber
    H.NumberToString H.default_config new_MessageParser
    (concat (map frame_bytes H.three_frames)) =
  (new_MessageParser,
   concat (map (encodeMessage H.JSON_stringify)
             (filter (fun m => negb (is_publish m))
                (map frame_message H.three_frames)))).
Proof.
  apply dropAll_forwards_the_rest;
    [reflexivity | exact three_frames_valid |].
  vm_compute.
  apply Forall_cons; [eexists; reflexivity |].
  apply Forall_cons; [eexists; reflexivity |].
  apply Forall_cons; [eexists; reflexivity |].
  apply Forall_nil.
Defined.

(** X14 at a header in capitals. *)
Lemma header_match_ignores_case_witness :
  header_match (js "CONTENT-LENGTH: 12") = header_match (js "Content-Length: 12").
Proof.
  apply header_match_ignores_case. run.
Defined.

(** X15 at a settings file with a variable and a setting of the user. *)
Lemma uninstall_restores_settings_witness :
  exists installed,
    ensureEnableLspTool H.JSON_parse_file H.JSON_stringify_indent
      (Some H.settings_text) =
      Normal (Some (H.JSON_stringify_indent installed ++ [10%N])) /\
    (H.JSON_parse_file (H.JSON_stringify_indent installed ++ [10%N]) =
       Some installed ->
     removeEnableLspTool H.JSON_parse_file H.JSON_stringify_indent
       (Some (H.JSON_stringify_indent installed ++ [10%N])) =
       Normal (Some (H.JSON_stringify_indent (JObject (spread H.settings))
                       ++ [10%N]))).
Proof.
  apply (uninstall_restores_settings H.JSON_parse_file H.JSON_stringify_indent
           (Some H.settings_text) (spread H.settings)); [run |].
  right. exists [(js "PATH", JString (js "p"))].
  split; [run | split; [discriminate | run]].
Defined.

(** X16 at the same settings. *)
Lemma ensure_settings_idempotent_witness :
  ensure_settings H.settings_installed = Normal None \/
  ensure_settings H.settings_installed = Normal (Some H.settings_installed).
Proof.
  apply (ensure_settings_idempotent H.settings). run.
Defined.

(** X17 at the same settings. *)
Lemma remove_settings_idempotent_witness :
  remove_settings H.settings = Normal None.
Proof.
  apply (remove_settings_idempotent H.settings_installed). run.
Defined.

(** X18 at the same settings. *)
Lemma ensure_settings_keeps_the_rest_witness :
  exists props',
    H.settings_installed = JObject props' /\
    (forall k, jsstring_eqb k (js "env") = false ->
               lookup k props' = lookup k (spread H.settings)) /\
    (forall eprops,
       lookup (js "env") (spread H.settings) = Some (JObject eprops) ->
       exists eprops',
         lookup (js "env") props' = Some (JObject eprops') /\
         lookup ENABLE_LSP_TOOL eprops' = Some (JString (js "1")) /\
         forall k, jsstring_eqb k ENABLE_LSP_TOOL = false ->
                   lookup k eprops' = lookup k eprops).
Proof.
  apply (ensure_settings_keeps_the_rest (spread H.settings)
           H.settings_installed).
  run.
Defined.

(* ================================================================== *)
(** ** Runs of the installer *)

(** The settings file after [install] and after [uninstall]: the variable
    is added to [env], and taken out again. *)
Example install_then_uninstall :
  ensureEnableLspTool H.JSON_parse_file H.JSON_stringify_indent
    (Some H.settings_text) =
    Normal (Some (H.JSON_stringify_indent H.settings_installed ++ [10%N])) /\
  H.JSON_stringify_indent H.settings_installed ++ [10%N] =
    H.lines ["{";
             "  'env': {";
             "    'PATH': 'p',";
             "    'ENABLE_LSP_TOOL': '1'";
             "  },";
             "  'theme': 'dark'";
             "}"] /\
  removeEnableLspTool H.JSON_parse_file H.JSON_stringify_indent
    (Some (H.JSON_stringify_indent H.settings_installed ++ [10%N])) =
    Normal (Some (H.JSON_stringify_indent H.settings ++ [10%N])).
Proof. repeat split; run. Qed.

(** A file that is not there, or that is not JSON, is written anew; an
    [env] that held the variable alone is removed with it. *)
Example settings_created_and_removed :
  ensureEnableLspTool H.JSON_parse_file H.JSON_stringify_indent None =
    Normal (Some (H.lines ["{";
                           "  'env': {";
                           "    'ENABLE_LSP_TOOL': '1'";
                           "  }";
                           "}"])) /\
  ensureEnableLspTool H.JSON_parse_file H.JSON_stringify_indent
    (Some (js "{not json")) =
    ensureEnableLspTool H.JSON_parse_file H.JSON_stringify_indent None /\
  removeEnableLspTool H.JSON_parse_file H.JSON_stringify_indent
    (Some (H.text "{'env':{'ENABLE_LSP_TOOL':'1'}}")) =
    Normal (Some (H.lines ["{}"])).
Proof. repeat split; run. Qed.

(** Settings that are [null], or whose [env] is a string, make
    [ensureEnableLspTool] throw: nothing is written. *)
Example settings_of_another_shape :
  ensureEnableLspTool H.JSON_parse_file H.JSON_stringify_indent
    (Some (js "null")) = Throw TypeError /\
  ensureEnableLspTool H.JSON_parse_file H.JSON_stringify_indent
    (Some (H.text "{'env':'PATH=p'}")) = Throw TypeError.
Proof. split; run. Qed.

(** An empty [env] does not come back: after [install] and [uninstall] the
    settings have no [env]. *)
Example empty_env_is_removed :
  ensure_settings (H.value "{'env':{}}") =
    Normal (Some (H.value "{'env':{'ENABLE_LSP_TOOL':'1'}}")) /\
  remove_settings (H.value "{'env':{'ENABLE_LSP_TOOL':'1'}}") =
    Normal (Some (JObject [])).
Proof. split; run. Qed.
